(** * disk/usage.py: the disk usage scan, embedded and verified

    A shallow embedding of [disk/usage.py]: the partition probe, the
    filesystem walk with its directory filter, the bounded list of the
    largest files, the per-directory totals and the percentage computation
    of the report.

    Conventions of the embedding.
    - Python [int] is [Z] where subtraction occurs (the statvfs figures) and
      [N] for the quantities that are sizes and counters.
    - A file size is stored as [float(st_size)].  Every value that reaches
      the size fields is a non-negative integer-valued binary64 number (or
      the [int] 0), so such a number is represented by its value in [N] and
      the binary64 rounding is written out ([float], [fadd]).
    - [os.stat] and [os.statvfs] either return or raise [OSError]: they are
      oracles returning [option].  [os.path.ismount] is an oracle to [bool].
    - What [os.walk] enumerates is a finite tree of names. *)

From Stdlib Require Import List String Ascii Bool NArith ZArith Lia.
From Stdlib Require Import Sorting.Sorted Sorting.Permutation.
From Stdlib Require QArith.
Import ListNotations.

Set Implicit Arguments.
Set Default Proof Using "Type".

(** ** Exceptions *)

Inductive exn : Type :=
| OSError
| AttributeError
| ZeroDivisionError.

Inductive result (A : Type) : Type :=
| Ok (a : A)
| Raise (e : exn).

Arguments Ok {A} a.
Arguments Raise {A} e.

Definition bind {A B : Type} (m : result A) (k : A -> result B) : result B :=
  match m with
  | Ok a => k a
  | Raise e => Raise e
  end.

Notation "x <- m ;; k" := (bind m (fun x => k))
  (at level 61, m at next level, right associativity).

(** ** Numbers: binary64 on non-negative integers *)

(** [float n]: the binary64 number nearest to the integer [n], ties to the
    even significand (53 bits).  Python's [float(int)] rounds this way, and
    so does the sum of two floats.  (The range of binary64 ends near
    [2^1024]; byte counts stay far below.) *)
Definition float (n : N) : N :=
  if (n <? 2 ^ 53)%N then n
  else
    let e := (N.log2 n - 52)%N in
    let q := (n / 2 ^ e)%N in
    let r := (n mod 2 ^ e)%N in
    let half := (2 ^ (e - 1))%N in
    let q' := if (half <? r)%N || ((r =? half)%N && N.odd q) then (q + 1)%N else q in
    (q' * 2 ^ e)%N.

(** [a + b] on two such numbers (float + float, int 0 + float, 0 + 0). *)
Definition fadd (a b : N) : N := float (a + b).

(** ** [sorted(iterable, key=..., reverse=True)]

    Python's sort is stable, also with [reverse=True]: the result is in
    descending key order and elements with equal keys keep the order they
    had in the input.  A stable sort has exactly one possible result; it is
    computed here by insertion from the right. *)
Fixpoint insert_desc {A : Type} (key : A -> N) (x : A) (l : list A) : list A :=
  match l with
  | [] => [x]
  | y :: l' => if (key x <? key y)%N then y :: insert_desc key x l' else x :: y :: l'
  end.

Definition sorted {A : Type} (key : A -> N) (l : list A) : list A :=
  fold_right (insert_desc key) [] l.

(** ** [os.path.join] (posixpath, two arguments) *)

Definition sep : ascii := "/"%char.

Definition startswith_sep (s : string) : bool :=
  match s with
  | String c _ => Ascii.eqb c sep
  | EmptyString => false
  end.

Fixpoint endswith_sep (s : string) : bool :=
  match s with
  | EmptyString => false
  | String c EmptyString => Ascii.eqb c sep
  | String _ s' => endswith_sep s'
  end.

Definition join (a b : string) : string :=
  if startswith_sep b then b
  else if String.eqb a EmptyString || endswith_sep a then (a ++ b)%string
  else (a ++ String sep b)%string.

(** ** Records of the program *)

(** The result of [os.stat], as far as the program reads it.  The time is
    only copied into the record; it is kept as a number of seconds. *)
Record stat_result : Type := {
  st_size : N;
  st_mtime : Z
}.

(** The result of [os.statvfs], as far as the program reads it. *)
Record statvfs_result : Type := {
  f_frsize : Z;
  f_blocks : Z;
  f_bfree : Z;
  f_bavail : Z;
  f_files : Z;
  f_favail : Z
}.

(** The [DottedDict] of a file or of a directory: the keys [name] and
    [modified] may be missing. *)
Record DottedDict : Type := {
  name : option string;
  modified : option Z;
  size : N
}.

(** The [DottedDict] held in [self.partition] once filled. *)
Record Partition : Type := {
  free : Z;
  total : Z;
  used : Z;
  inodes_free : Z;
  inodes_total : Z;
  inodes_used : Z
}.

(** [self._dirs_holder]: a dict from directory path to accumulated size, in
    insertion order (the order [items()] enumerates). *)
Definition dict : Type := list (string * N).

(** The object while [__init__] runs.  [partition] is [None] while the
    [DottedDict] is still empty. *)
Record DiskUsage : Type := {
  _activity : string;
  _dirs_holder : dict;
  dir_count : nat;
  dirs : list DottedDict;
  file_count : N;
  files : list DottedDict;
  partition : option Partition
}.

(** The object [__init__] returns: [_activity] and [_dirs_holder] have been
    deleted by then. *)
Record Disk : Type := {
  disk_dir_count : nat;
  disk_dirs : list DottedDict;
  disk_file_count : N;
  disk_files : list DottedDict;
  disk_partition : option Partition
}.

(** [self.exclude_root_dirs], assigned once in [__init__]. *)
Definition exclude_root_dirs : list string :=
  ["dev"%string; "proc"%string; "selinux"%string].

(** What [os.walk] enumerates below a directory: its subdirectories by name
    and the names of its other entries. *)
#[warnings="-register-all"]
Inductive tree : Type :=
| Node (subdirs : list (string * tree)) (nondirs : list string).

(** ** Dict operations *)

Fixpoint dict_in (k : string) (d : dict) : bool :=
  match d with
  | [] => false
  | (k', _) :: d' => String.eqb k k' || dict_in k d'
  end.

Fixpoint dict_get (k : string) (d : dict) : option N :=
  match d with
  | [] => None
  | (k', v) :: d' => if String.eqb k k' then Some v else dict_get k d'
  end.

(** [d[k] += v] for a key that is present: the entry keeps its position. *)
Fixpoint dict_iadd (k : string) (v : N) (d : dict) : dict :=
  match d with
  | [] => []
  | (k', v') :: d' =>
      if String.eqb k k' then (k', fadd v' v) :: d' else (k', v') :: dict_iadd k v d'
  end.

(** [d[k] = v] for a key that is absent: the entry goes last. *)
Definition dict_new (k : string) (v : N) (d : dict) : dict := d ++ [(k, v)].

Fixpoint assoc {B : Type} (k : string) (l : list (string * B)) : option B :=
  match l with
  | [] => None
  | (k', b) :: l' => if String.eqb k k' then Some b else assoc k l'
  end.

(** ** [os.walk(top)], top-down, consumed by a [for] loop

    [os.walk] yields [(top, dirs, nondirs)], the loop body runs, and the
    generator then descends into each name that the list object [dirs]
    holds at that moment: the body may prune the walk by assigning to
    [dirs[:]].  The body is therefore a function that returns the contents
    of [dirs] after it ran, together with the new state.  A name the
    directory does not have leads nowhere.  The model is of a walk that
    runs to its end: the limit that the interpreter sets on the depth of
    the recursion is outside it. *)
Definition descend {S : Type} (descents : list (string * (S -> S)))
    (dirs : list string) (s : S) : S :=
  fold_left
    (fun acc dirname =>
       match assoc dirname descents with
       | Some k => k acc
       | None => acc
       end)
    dirs s.

Fixpoint os_walk {S : Type}
    (body : string -> list string -> list string -> S -> list string * S)
    (top : string) (t : tree) (s : S) {struct t} : S :=
  match t with
  | Node subdirs nondirs =>
      let '(dirs, s1) := body top (map fst subdirs) nondirs s in
      descend
        (map (fun p : string * tree =>
                let '(d, sub) := p in (d, os_walk body (join top d) sub))
             subdirs)
        dirs s1
  end.

(** *** Loop bodies of the shape used by [_walk_filesystem] *)

Section Yields.

(** How the body filters the list object [dirs]. *)
Variable flt : string -> list string -> list string.

(** A body that filters [dirs] and updates the state from [root] and
    [files]. *)
Definition body_of {S : Type} (g : string -> list string -> S -> S)
    (root : string) (dirs files : list string) (s : S) : list string * S :=
  (flt root dirs, g root files s).

Definition record_yield (root : string) (files : list string)
    (acc : list (string * list string)) : list (string * list string) :=
  acc ++ [(root, files)].

(** The pairs [(root, files)] such a body is handed, in order. *)
Definition yields (top : string) (t : tree) : list (string * list string) :=
  os_walk (body_of record_yield) top t [].

End Yields.

(** ** The methods of [DiskUsage] *)

Section Methods.

(** [os.stat(path)]: [None] when it raises [OSError]. *)
Variable os_stat : string -> option stat_result.
(** [os.path.ismount(path)]. *)
Variable os_path_ismount : string -> bool.
(** The answer of the identity test [root is '/'] for a [root] that equals
    ['/']: whether the two are one object.  CPython keeps one shared object
    for a one-character string in most ways of making one (a command line
    argument among them), not in all. *)
Variable same_object : bool.
(** [os.statvfs(path)]: [None] when it raises [OSError]. *)
Variable os_statvfs : string -> option statvfs_result.

Definition _add_up_dir (root : string) (file_data : DottedDict)
    (self : DiskUsage) : DiskUsage :=
  let d := _dirs_holder self in
  let d' :=
    if dict_in root d then dict_iadd root (size file_data) d
    else dict_new root (size file_data) d in
  {| _activity := _activity self; _dirs_holder := d';
     dir_count := dir_count self; dirs := dirs self;
     file_count := file_count self; files := files self;
     partition := partition self |}.

(** [dirs[:] = filter(...)] replaces the contents of the list object; the
    function returns that same object.  [root is '/'] tests identity: it
    holds when [root] equals ['/'] and is moreover the same object as the
    literal, which is [same_object]. *)
Definition _filter_dirs (root : string) (dirs : list string) : list string :=
  let dirs1 := filter (fun dir => negb (os_path_ismount (join root dir))) dirs in
  if String.eqb root "/" && same_object then
    filter (fun dir => negb (existsb (String.eqb dir) exclude_root_dirs)) dirs1
  else dirs1.

Definition _get_file_data (filename : string) : DottedDict :=
  match os_stat filename with
  | Some file_stat =>
      {| name := Some filename;
         modified := Some (st_mtime file_stat);
         size := float (st_size file_stat) |}
  | None => {| name := None; modified := None; size := 0%N |}
  end.

Definition _get_partition_usage (target : string) (self : DiskUsage)
    : result DiskUsage :=
  match os_statvfs target with
  | None => Raise OSError
  | Some st =>
      Ok {| _activity := _activity self; _dirs_holder := _dirs_holder self;
            dir_count := dir_count self; dirs := dirs self;
            file_count := file_count self; files := files self;
            partition :=
              Some {| free := (f_bavail st * f_frsize st)%Z;
                      total := (f_blocks st * f_frsize st)%Z;
                      used := ((f_blocks st - f_bfree st) * f_frsize st)%Z;
                      inodes_free := f_favail st;
                      inodes_total := f_files st;
                      inodes_used := (f_files st - f_favail st)%Z |} |}
  end.

Definition _sort_files_list (self : DiskUsage) : list DottedDict :=
  sorted size (files self).

Definition set_files (fs : list DottedDict) (self : DiskUsage) : DiskUsage :=
  {| _activity := _activity self; _dirs_holder := _dirs_holder self;
     dir_count := dir_count self; dirs := dirs self;
     file_count := file_count self; files := fs;
     partition := partition self |}.

Definition _process_files (file_data : DottedDict) (self : DiskUsage)
    : DiskUsage :=
  let self1 := set_files (files self ++ [file_data]) self in
  let self2 := set_files (_sort_files_list self1) self1 in
  if (21 <=? List.length (files self2))%nat
  then set_files (removelast (files self2)) self2
  else self2.

(** The writes to [sys.stdout] are not part of the object and are left
    out; the update of [_activity] is kept. *)
Definition _show_activity (self : DiskUsage) : DiskUsage :=
  let a1 := if (String.length (_activity self) =? 5)%nat
            then EmptyString else _activity self in
  let a2 := if (file_count self mod 5000 =? 0)%N
            then (a1 ++ ".")%string else a1 in
  {| _activity := a2; _dirs_holder := _dirs_holder self;
     dir_count := dir_count self; dirs := dirs self;
     file_count := file_count self; files := files self;
     partition := partition self |}.

(** Writes to [sys.stdout] and deletes [_activity]; the attribute is
    absent from [Disk]. *)
Definition _remove_activity (self : DiskUsage) : DiskUsage := self.

(** [self.dirs] after the [for] loop of [_sort_dirs], before the slice. *)
Definition sorted_dirs (self : DiskUsage) : list DottedDict :=
  fold_left
    (fun acc kv =>
       acc ++ [{| name := Some (fst kv); modified := None; size := snd kv |}])
    (sorted (@snd string N) (_dirs_holder self))
    (dirs self).

Definition _sort_dirs (self : DiskUsage) : Disk :=
  let dirs1 := sorted_dirs self in
  {| disk_dir_count := List.length dirs1;
     disk_dirs := firstn 10 dirs1;
     disk_file_count := file_count self;
     disk_files := files self;
     disk_partition := partition self |}.

Definition incr_file_count (self : DiskUsage) : DiskUsage :=
  {| _activity := _activity self; _dirs_holder := _dirs_holder self;
     dir_count := dir_count self; dirs := dirs self;
     file_count := (file_count self + 1)%N; files := files self;
     partition := partition self |}.

(** The body of [for name in files] at a given [root]. *)
Definition visit_file (root : string) (self : DiskUsage) (name : string)
    : DiskUsage :=
  let filename := join root name in
  let file_data := _get_file_data filename in
  let self := incr_file_count self in
  let self := _show_activity self in
  let self := _process_files file_data self in
  _add_up_dir root file_data self.

(** The body of [for root, dirs, files in os.walk(target)]. *)
Definition walk_body (root : string) (dirs files : list string)
    (self : DiskUsage) : list string * DiskUsage :=
  (_filter_dirs root dirs, fold_left (visit_file root) files self).

(** The loop of [_walk_filesystem], before the two final calls. *)
Definition walk_loop (target : string) (t : tree) (self : DiskUsage)
    : DiskUsage :=
  os_walk walk_body target t self.

Definition _walk_filesystem (target : string) (t : tree) (self : DiskUsage)
    : Disk :=
  _sort_dirs (_remove_activity (walk_loop target t self)).

Definition new_object : DiskUsage :=
  {| _activity := EmptyString; _dirs_holder := [];
     dir_count := 0; dirs := [];
     file_count := 0%N; files := [];
     partition := None |}.

(** [DiskUsage(target)], with [t] what [os.walk(target)] finds. *)
Definition __init__ (target : string) (t : tree) : result Disk :=
  self <- _get_partition_usage target new_object ;;
  Ok (_walk_filesystem target t self).

(** *** What the loop sees *)

(** The object after the partition probe returned [p]. *)
Definition probed (p : option Partition) : DiskUsage :=
  {| _activity := EmptyString; _dirs_holder := [];
     dir_count := 0; dirs := [];
     file_count := 0%N; files := [];
     partition := p |}.

(** The pairs [(root, files)] that the loop of [_walk_filesystem]
    receives, in order. *)
Definition walk_yields (target : string) (t : tree)
    : list (string * list string) :=
  yields _filter_dirs target t.

(** The directories visited. *)
Definition visited (target : string) (t : tree) : list string :=
  map fst (walk_yields target t).

(** The file entries processed, as [(root, name)], in order. *)
Definition walk_files (target : string) (t : tree) : list (string * string) :=
  flat_map (fun y => map (pair (fst y)) (snd y)) (walk_yields target t).

(** The inner loop body on an entry [(root, name)]. *)
Definition visit (self : DiskUsage) (e : string * string) : DiskUsage :=
  visit_file (fst e) self (snd e).

(** The record emitted for an entry. *)
Definition record_of (e : string * string) : DottedDict :=
  _get_file_data (join (fst e) (snd e)).

(** The byte size of an entry when [os.stat] succeeds on it. *)
Definition stat_size (e : string * string) : N :=
  match os_stat (join (fst e) (snd e)) with
  | Some file_stat => st_size file_stat
  | None => 0%N
  end.

(** [t] without the subdirectories that are mount points, at any depth,
    and without what lies below them. *)
Fixpoint prune_mounts (top : string) (t : tree) : tree :=
  match t with
  | Node subdirs nondirs =>
      Node
        (filter (fun p => negb (os_path_ismount (join top (fst p))))
           (map (fun p : string * tree =>
                   let '(d, sub) := p in (d, prune_mounts (join top d) sub))
                subdirs))
        nondirs
  end.

End Methods.


(** ** The percentages of the report *)

Section Report.

(** A percentage is a binary64 number that need not be an integer; the
    type and its arithmetic are parameters. *)
Variable pyfloat : Type.
(** [float(i)] for an [int]. *)
Variable float_of_int : Z -> pyfloat.
(** [x / y] for [y] other than [0.0], and [x * y]. *)
Variable fdiv fmul : pyfloat -> pyfloat -> pyfloat.
(** [round(x, ndigits)]. *)
Variable round : pyfloat -> Z -> pyfloat.
(** How [str.format] renders a float and an int. *)
Variable format_float : pyfloat -> string.
Variable format_int : Z -> string.
(** [units.to_human_readable], of the module [utils]. *)
Variable to_human_readable : Z -> string.

(** [float(total)] is [0.0] exactly when [total] is [0], and dividing by
    [0.0] raises [ZeroDivisionError]. *)
Definition calculate_percent (free total : Z) : result pyfloat :=
  let x := float_of_int free in
  let y := float_of_int total in
  q <- (if (total =? 0)%Z then Raise ZeroDivisionError else Ok (fdiv x y)) ;;
  Ok (round (fmul q (float_of_int 100)) 2).

Definition tab : string := String (ascii_of_nat 9) EmptyString.
Definition newline : string := String (ascii_of_nat 10) EmptyString.

(** Reading a key of [disk.partition] that was never set raises. *)
Definition format_partition_output (output : list string) (disk : Disk)
    (target : string) : result (list string) :=
  match disk_partition disk with
  | None => Raise AttributeError
  | Some p =>
      pct <- calculate_percent (free p) (total p) ;;
      let output :=
        output ++ [(format_float pct ++ "% available disk space on " ++ target)%string] in
      let output :=
        output ++ [("Total: " ++ to_human_readable (total p) ++ tab
                    ++ "Used: " ++ to_human_readable (used p) ++ tab
                    ++ "Free: " ++ to_human_readable (free p) ++ newline)%string] in
      ipct <- calculate_percent (inodes_free p) (inodes_total p) ;;
      let output :=
        output ++ [(format_float ipct ++ "% of Total Inodes are free.")%string] in
      let output :=
        output ++ [("Total Inodes: " ++ format_int (inodes_total p) ++ tab
                    ++ "Used: " ++ format_int (inodes_used p) ++ tab
                    ++ "Free: " ++ format_int (inodes_free p) ++ newline)%string] in
      Ok output
  end.

End Report.

(** ** Notions used in the statements *)

Open Scope N_scope.

(** Descending by [key], as a sorted list is. *)
Definition descending {A : Type} (key : A -> N) (l : list A) : Prop :=
  StronglySorted (fun a b => key b <= key a) l.

(** [x] put into a descending list behind every element that is at least
    as large: the sorted position with stable tie-breaking. *)
Fixpoint insert_stable {A : Type} (key : A -> N) (x : A) (l : list A) : list A :=
  match l with
  | [] => [x]
  | y :: l' => if key y <? key x then x :: y :: l' else y :: insert_stable key x l'
  end.

(** What [_process_files] does to the list [self.files]. *)
Definition process_list (file_data : DottedDict) (l : list DottedDict)
    : list DottedDict :=
  let l2 := sorted size (l ++ [file_data]) in
  if (21 <=? List.length l2)%nat then removelast l2 else l2.

Definition sum_N (l : list N) : N := fold_right N.add 0 l.

(** The sum of the values of a dict. *)
Definition dict_total (d : dict) : N := sum_N (map snd d).

(** A number that [float] leaves alone: a binary64 value. *)
Definition representable (v : N) : Prop := float v = v.

Definition sentinel : DottedDict :=
  {| name := None; modified := None; size := 0 |}.

(** What [_add_up_dir] does to the dict. *)
Definition add_up (root : string) (v : N) (d : dict) : dict :=
  if dict_in root d then dict_iadd root v d else dict_new root v d.

(** The [DottedDict] appended to [self.dirs] for an item of the dict. *)
Definition dir_entry (kv : string * N) : DottedDict :=
  {| name := Some (fst kv); modified := None; size := snd kv |}.

(** Induction on a tree with the subtrees of a node as hypothesis. *)
Fixpoint tree_nested_ind (P : tree -> Prop)
    (H : forall subdirs nondirs,
        Forall (fun p => P (snd p)) subdirs -> P (Node subdirs nondirs))
    (t : tree) {struct t} : P t :=
  match t with
  | Node subdirs nondirs =>
      H subdirs nondirs
        ((fix go (l : list (string * tree)) : Forall (fun p => P (snd p)) l :=
            match l with
            | [] => Forall_nil _
            | p :: l' => Forall_cons p (tree_nested_ind P H (snd p)) (go l')
            end) subdirs)
  end.

(** ** Concrete filesystems for the instances *)

Module Sample.

Definition stat_none (path : string) : option stat_result := None.

Definition no_mounts (path : string) : bool := false.

Fixpoint last_char (s : string) : ascii :=
  match s with
  | EmptyString => zero
  | String c EmptyString => c
  | String _ s' => last_char s'
  end.

(** Every path exists; its size is the code of its last character. *)
Definition stat_by_last_char (path : string) : option stat_result :=
  Some {| st_size := N_of_ascii (last_char path); st_mtime := 0 |}.

Definition names25 : list string :=
  ["k"; "c"; "y"; "a"; "q"; "e"; "w"; "g"; "o"; "i"; "b"; "m"; "u";
   "h"; "s"; "d"; "x"; "f"; "t"; "j"; "v"; "l"; "r"; "n"; "p"]%string.

(** Five files of 100, 5000, 1, 999999 and 100 bytes in [/t] and two of 7
    bytes in [/t/s]; [os.stat] fails on every other path. *)
Definition stat_five (path : string) : option stat_result :=
  let sized n := Some {| st_size := n; st_mtime := 0 |} in
  if String.eqb path "/t/a" then sized 100
  else if String.eqb path "/t/b" then sized 5000
  else if String.eqb path "/t/c" then sized 1
  else if String.eqb path "/t/d" then sized 999999
  else if String.eqb path "/t/e" then sized 100
  else if String.eqb path "/t/s/a" then sized 7
  else if String.eqb path "/t/s/c" then sized 7
  else None.

(** A file of 2^53 bytes and two of one byte. *)
Definition stat_huge (path : string) : option stat_result :=
  let sized n := Some {| st_size := n; st_mtime := 0 |} in
  if String.eqb path "/t/a" then sized (2 ^ 53)
  else if String.eqb path "/t/b" then sized 1
  else if String.eqb path "/t/c" then sized 1
  else None.

(** 1000 blocks of 4096 bytes, 300 free, 250 of them available to
    non-privileged callers. *)
Definition statvfs_reserved : statvfs_result :=
  {| f_frsize := 4096; f_blocks := 1000; f_bfree := 300; f_bavail := 250;
     f_files := 100; f_favail := 60 |}.

(** A filesystem that reports no inodes. *)
Definition statvfs_no_inodes : statvfs_result :=
  {| f_frsize := 4096; f_blocks := 1000; f_bfree := 300; f_bavail := 250;
     f_files := 0; f_favail := 0 |}.

Fixpoint distinctb (l : list N) : bool :=
  match l with
  | [] => true
  | x :: l' => negb (existsb (N.eqb x) l') && distinctb l'
  end.

(** Exact rationals in the place of binary64. *)
Definition q_of_int (i : Z) : QArith_base.Q := QArith_base.inject_Z i.

Definition half_even (q : QArith_base.Q) : Z :=
  let n := QArith_base.Qnum q in
  let d := Zpos (QArith_base.Qden q) in
  let fl := (n / d)%Z in
  let r2 := (2 * (n mod d))%Z in
  if (r2 <? d)%Z then fl
  else if (d <? r2)%Z then (fl + 1)%Z
  else if Z.even fl then fl else (fl + 1)%Z.

Definition q_round (x : QArith_base.Q) (ndigits : Z) : QArith_base.Q :=
  let s := QArith_base.inject_Z (10 ^ ndigits) in
  QArith_base.Qdiv
    (QArith_base.inject_Z (half_even (QArith_base.Qmult x s))) s.

End Sample.

(** ** Further notions: entries of one directory, the progress indicator *)

(** The entries of [es] that lie directly in [root]. *)
Definition entries_in (root : string) (es : list (string * string))
    : list (string * string) :=
  filter (fun e => String.eqb (fst e) root) es.

(** A run of [n] dots. *)
Fixpoint dots (n : nat) : string :=
  match n with
  | O => EmptyString
  | S n' => String "."%char (dots n')
  end.

Definition cr : string := String (ascii_of_nat 13) EmptyString.

(** What a call of [_show_activity] writes to [sys.stdout], in order. *)
Definition _show_activity_writes (self : DiskUsage) : list string :=
  if file_count self mod 5000 =? 0
  then [cr; _activity (_show_activity self)]
  else [].

(** What [_remove_activity] writes. *)
Definition _remove_activity_writes (self : DiskUsage) : list string :=
  [cr; EmptyString].

(** The walk with what it writes: the state is the object together with
    the text written so far. *)
Section Output.

Variable os_stat : string -> option stat_result.
Variable os_path_ismount : string -> bool.
Variable same_object : bool.

Definition visit_file_io (root : string) (w : DiskUsage * list string)
    (name : string) : DiskUsage * list string :=
  (visit_file os_stat root (fst w) name,
   snd w ++ _show_activity_writes (incr_file_count (fst w))).

Definition walk_body_io (root : string) (dirs files : list string)
    (w : DiskUsage * list string) : list string * (DiskUsage * list string) :=
  (_filter_dirs os_path_ismount same_object root dirs, fold_left (visit_file_io root) files w).

Definition _walk_filesystem_io (target : string) (t : tree) (self : DiskUsage)
    : Disk * list string :=
  let w := os_walk walk_body_io target t (self, []) in
  (_sort_dirs (_remove_activity (fst w)),
   snd w ++ _remove_activity_writes (fst w)).

End Output.

(** Whether the walk descends from [root] into its subdirectory [dir]:
    the filter of [_filter_dirs] as one predicate. *)
Definition should_descend (ismount : string -> bool) (same_object : bool)
    (root dir : string) : bool :=
  negb (ismount (join root dir)) &&
  (negb (String.eqb root "/" && same_object)
   || negb (existsb (String.eqb dir) exclude_root_dirs)).

(** What may be written: a carriage return or a run of at most 5 dots
    (the empty string among them). *)
Definition progress_text (s : string) : Prop :=
  s = cr \/ exists k, (k <= 5)%nat /\ s = dots k.

(** ** The [try] statement of [_get_file_data], with its exceptions *)

(** [os.stat] as a call that returns or raises: the [None] of the oracle
    is [OSError]. *)
Definition raising (os_stat : string -> option stat_result) (path : string)
    : result stat_result :=
  match os_stat path with
  | Some file_stat => Ok file_stat
  | None => Raise OSError
  end.

(** [_get_file_data] with the exception handling written out, for a call
    of [os.stat] that may raise any exception: [except OSError] catches
    [OSError] and lets every other exception pass. *)
Definition _get_file_data_try (stat_call : string -> result stat_result)
    (filename : string) : result DottedDict :=
  match stat_call filename with
  | Ok file_stat =>
      Ok {| name := Some filename;
            modified := Some (st_mtime file_stat);
            size := float (st_size file_stat) |}
  | Raise OSError => Ok {| name := None; modified := None; size := 0 |}
  | Raise e => Raise e
  end.

(** The body of [for name in files] with the exceptions of [os.stat]. *)
Definition visit_file_try (stat_call : string -> result stat_result)
    (root : string) (self : DiskUsage) (name : string) : result DiskUsage :=
  file_data <- _get_file_data_try stat_call (join root name) ;;
  Ok (_add_up_dir root file_data
        (_process_files file_data (_show_activity (incr_file_count self)))).

(** Whether [os.stat] succeeds on an entry. *)
Definition stat_succeeds (os_stat : string -> option stat_result)
    (e : string * string) : bool :=
  match os_stat (join (fst e) (snd e)) with
  | Some _ => true
  | None => false
  end.

(** A record of a size other than 0. *)
Definition positive (r : DottedDict) : bool := 0 <? size r.

(** Whether a list of records holds one with the given path. *)
Definition lists (path : string) (l : list DottedDict) : bool :=
  existsb
    (fun r => match name r with Some n => String.eqb n path | None => false end)
    l.

(** ** Further concrete filesystems *)

Module Cases.

Definition letters : list string :=
  ["a"; "b"; "c"; "d"; "e"; "f"; "g"; "h"; "i"; "j"; "k"; "l"; "m";
   "n"; "o"; "p"; "q"; "r"; "s"; "t"; "u"; "v"; "w"; "x"; "y"]%string.

(** 25 files of [2^60], [2^60 + 1], ..., [2^60 + 24] bytes, by the last
    letter of the path. *)
Definition stat_colliding (path : string) : option stat_result :=
  Some {| st_size := 2 ^ 60 + (N_of_ascii (Sample.last_char path) - 97);
          st_mtime := 0 |}.

(** [/t/broken] cannot be stat'ed, [/t/empty] has 0 bytes, any other path
    has as many bytes as the code of its last character. *)
Definition stat_with_broken (path : string) : option stat_result :=
  if String.eqb path "/t/broken" then None
  else if String.eqb path "/t/empty"
       then Some {| st_size := 0; st_mtime := 0 |}
       else Some {| st_size := N_of_ascii (Sample.last_char path); st_mtime := 0 |}.

End Cases.

(** * Proofs *)

(** ** Rounding *)

Lemma float_exact n : n <= 2 ^ 53 -> float n = n.
Proof.
  intros H. unfold float.
  destruct (N.ltb_spec n (2 ^ 53)) as [Hlt | Hge]; [reflexivity|].
  assert (n = 2 ^ 53) as -> by lia.
  vm_compute. reflexivity.
Qed.

Lemma float_scaled e q :
  1 <= e -> 2 ^ 52 <= q < 2 ^ 53 -> float (q * 2 ^ e) = q * 2 ^ e.
Proof.
  intros He [Hlo Hhi]. unfold float.
  assert (Hpe : 2 <= 2 ^ e).
  { change 2 with (2 ^ 1) at 1. apply N.pow_le_mono_r; lia. }
  assert (Hm : 2 ^ 53 <= q * 2 ^ e).
  { change (2 ^ 53) with (2 ^ 52 * 2). apply N.mul_le_mono; assumption. }
  destruct (N.ltb_spec (q * 2 ^ e) (2 ^ 53)) as [Hlt | _]; [lia|].
  assert (Hlog : N.log2 (q * 2 ^ e) = 52 + e).
  { apply N.log2_unique; [lia|]. split.
    - rewrite N.pow_add_r. apply N.mul_le_mono_r. assumption.
    - rewrite N.pow_succ_r by lia. rewrite N.pow_add_r.
      rewrite N.mul_assoc. change (2 * 2 ^ 52) with (2 ^ 53).
      apply N.mul_lt_mono_pos_r; lia. }
  rewrite Hlog. replace (52 + e - 52) with e by lia.
  assert (Hne : 2 ^ e <> 0) by lia.
  rewrite N.div_mul by assumption.
  rewrite N.Div0.mod_mul.
  assert (Hhalf : 0 < 2 ^ (e - 1)).
  { apply N.neq_0_lt_0. apply N.pow_nonzero. lia. }
  destruct (N.ltb_spec (2 ^ (e - 1)) 0) as [?|_]; [lia|].
  destruct (N.eqb_spec 0 (2 ^ (e - 1))) as [?|_]; [lia|].
  reflexivity.
Qed.

Lemma float_large n :
  2 ^ 53 <= n ->
  exists e q, 1 <= e /\ 2 ^ 52 <= q <= 2 ^ 53 /\ float n = q * 2 ^ e.
Proof.
  intros Hn. unfold float.
  destruct (N.ltb_spec n (2 ^ 53)) as [Hlt | _]; [lia|].
  assert (H53 : 53 <= N.log2 n).
  { change 53 with (N.log2 (2 ^ 53)). apply N.log2_le_mono. assumption. }
  set (e := N.log2 n - 52).
  assert (Hl : N.log2 n = 52 + e) by (unfold e; lia).
  assert (Hpos : 0 < n) by lia.
  destruct (N.log2_spec n Hpos) as [Hlo Hhi].
  rewrite Hl in Hlo, Hhi.
  rewrite N.pow_succ_r in Hhi by lia.
  rewrite N.pow_add_r in Hlo, Hhi.
  rewrite N.mul_assoc in Hhi. change (2 * 2 ^ 52) with (2 ^ 53) in Hhi.
  assert (Hne : 2 ^ e <> 0) by (apply N.pow_nonzero; lia).
  assert (Hq1 : 2 ^ 52 <= n / 2 ^ e).
  { apply N.div_le_lower_bound; [assumption|]. rewrite N.mul_comm. assumption. }
  assert (Hq2 : n / 2 ^ e < 2 ^ 53).
  { apply N.Div0.div_lt_upper_bound. rewrite N.mul_comm. assumption. }
  exists e.
  eexists. split; [unfold e; lia|]. split; [|reflexivity].
  destruct (_ || _); lia.
Qed.

Lemma float_idem n : float (float n) = float n.
Proof.
  destruct (N.le_gt_cases n (2 ^ 53)) as [Hle | Hgt].
  - rewrite (float_exact Hle). apply float_exact. assumption.
  - destruct (@float_large n) as (e & q & He & [Hq1 Hq2] & ->); [lia|].
    destruct (N.eq_dec q (2 ^ 53)) as [-> | Hneq].
    + replace (2 ^ 53 * 2 ^ e) with (2 ^ 52 * 2 ^ (e + 1)).
      * apply float_scaled; [lia|]. split; [lia|]. vm_compute. reflexivity.
      * rewrite N.pow_add_r. change (2 ^ 53) with (2 ^ 52 * 2 ^ 1). lia.
    + apply float_scaled; lia.
Qed.

Lemma representable_float n : representable (float n).
Proof. apply float_idem. Qed.

Lemma representable_0 : representable 0.
Proof. reflexivity. Qed.

Lemma fadd_0_r v : representable v -> fadd v 0 = v.
Proof. intros H. unfold fadd. rewrite N.add_0_r. exact H. Qed.

Lemma fadd_exact a b : a + b <= 2 ^ 53 -> fadd a b = a + b.
Proof. intros H. apply float_exact. exact H. Qed.

(** ** The stable descending sort *)

Section Sorting.

Context {A : Type} (key : A -> N).

Lemma insert_desc_perm x l : Permutation (x :: l) (insert_desc key x l).
Proof.
  induction l as [|y l IH]; simpl; [reflexivity|].
  destruct (key x <? key y); [|reflexivity].
  rewrite perm_swap. apply perm_skip. exact IH.
Qed.

Lemma sorted_perm l : Permutation l (sorted key l).
Proof.
  induction l as [|x l IH]; simpl; [reflexivity|].
  rewrite <- insert_desc_perm. apply perm_skip. exact IH.
Qed.

Lemma sorted_length l : List.length (sorted key l) = List.length l.
Proof. symmetry. apply Permutation_length, sorted_perm. Qed.

Lemma descending_cons x l :
  descending key (x :: l) <->
  descending key l /\ Forall (fun b => key b <= key x) l.
Proof.
  split.
  - intros H. inversion H; subst. split; assumption.
  - intros [H1 H2]. constructor; assumption.
Qed.

Lemma insert_desc_descending x l :
  descending key l -> descending key (insert_desc key x l).
Proof.
  induction l as [|y l IH]; simpl; intros H.
  - constructor; constructor.
  - apply descending_cons in H. destruct H as [Hl Hy].
    destruct (N.ltb_spec (key x) (key y)) as [Hlt | Hge].
    + apply descending_cons. split; [apply IH; exact Hl|].
      eapply Permutation_Forall; [apply insert_desc_perm|].
      constructor; [lia | exact Hy].
    + apply descending_cons. split.
      * apply descending_cons. split; assumption.
      * constructor; [exact Hge|].
        eapply Forall_impl; [|exact Hy]. simpl. intros; lia.
Qed.

Lemma sorted_descending l : descending key (sorted key l).
Proof.
  induction l as [|x l IH]; simpl.
  - constructor.
  - apply insert_desc_descending. exact IH.
Qed.

(** Stability: the elements of any one key keep their order. *)
Lemma insert_desc_filter x l k :
  filter (fun a => key a =? k) (insert_desc key x l) =
  filter (fun a => key a =? k) (x :: l).
Proof.
  induction l as [|y l IH]; [reflexivity|].
  simpl insert_desc.
  destruct (N.ltb_spec (key x) (key y)) as [Hlt | Hge]; [|reflexivity].
  simpl in *. rewrite IH.
  destruct (N.eqb_spec (key x) k), (N.eqb_spec (key y) k);
    try reflexivity; lia.
Qed.

Lemma sorted_stable l k :
  filter (fun a => key a =? k) (sorted key l) = filter (fun a => key a =? k) l.
Proof.
  induction l as [|x l IH]; [reflexivity|].
  simpl sorted. rewrite insert_desc_filter. simpl. rewrite IH. reflexivity.
Qed.

(** A descending list is determined by the sequences of its elements of
    each key: there is one stable descending arrangement of a list, the
    result of any stable sort. *)
Lemma descending_stable_unique l1 l2 :
  descending key l1 -> descending key l2 ->
  (forall k, filter (fun a => key a =? k) l1 = filter (fun a => key a =? k) l2) ->
  l1 = l2.
Proof.
  assert (Hnil : forall y l, (forall k, [] = filter (fun a => key a =? k) (y :: l)) -> False).
  { intros y l H. specialize (H (key y)). simpl in H.
    rewrite N.eqb_refl in H. discriminate. }
  assert (Hle : forall x l y l',
             descending key (y :: l') ->
             (forall k, filter (fun a => key a =? k) (x :: l) =
                        filter (fun a => key a =? k) (y :: l')) ->
             key x <= key y).
  { intros x l y l' Hd H. specialize (H (key x)).
    assert (Hin : In x (filter (fun a => key a =? key x) (y :: l'))).
    { rewrite <- H. simpl. rewrite N.eqb_refl. left. reflexivity. }
    apply filter_In in Hin. destruct Hin as [[<- | Hin] _]; [lia|].
    apply descending_cons in Hd. destruct Hd as [_ Hy].
    rewrite Forall_forall in Hy. apply Hy. exact Hin. }
  revert l2. induction l1 as [|x l1 IH]; intros [|y l2] H1 H2 H.
  - reflexivity.
  - exfalso. apply (Hnil y l2). exact H.
  - exfalso. apply (Hnil x l1). intros k. symmetry. apply H.
  - assert (Ek : key x = key y).
    { apply N.le_antisymm.
      - apply (Hle x l1 y l2 H2 H).
      - apply (Hle y l2 x l1 H1). intros k. symmetry. apply H. }
    pose proof (H (key x)) as Hx. simpl in Hx.
    rewrite <- Ek, N.eqb_refl in Hx. injection Hx as <- Hx.
    f_equal. apply IH.
    + apply descending_cons in H1. apply H1.
    + apply descending_cons in H2. apply H2.
    + intros k. specialize (H k). simpl in H.
      destruct (key x =? k); [injection H as H|]; exact H.
Qed.

Lemma sorted_unique l l' :
  descending key l' ->
  (forall k, filter (fun a => key a =? k) l' = filter (fun a => key a =? k) l) ->
  l' = sorted key l.
Proof.
  intros Hd H. apply descending_stable_unique;
    [exact Hd | apply sorted_descending|].
  intros k. rewrite sorted_stable. apply H.
Qed.

Lemma insert_desc_head x l :
  Forall (fun b => key b <= key x) l -> insert_desc key x l = x :: l.
Proof.
  destruct l as [|y l]; [reflexivity|]. intros H. inversion H; subst.
  simpl. destruct (N.ltb_spec (key x) (key y)); [lia | reflexivity].
Qed.

Lemma sorted_id l : descending key l -> sorted key l = l.
Proof.
  induction l as [|x l IH]; [reflexivity|]. intros H.
  apply descending_cons in H. destruct H as [Hl Hx].
  simpl. rewrite IH by exact Hl. apply insert_desc_head. exact Hx.
Qed.

Lemma insert_commute x y l :
  insert_desc key y (insert_stable key x l) =
  insert_stable key x (insert_desc key y l).
Proof.
  induction l as [|z l IH]; simpl.
  - destruct (N.ltb_spec (key y) (key x)); reflexivity.
  - destruct (N.ltb_spec (key z) (key x)) as [Hzx | Hzx];
      destruct (N.ltb_spec (key y) (key z)) as [Hyz | Hyz]; simpl.
    + destruct (N.ltb_spec (key y) (key x)); [|lia].
      destruct (N.ltb_spec (key y) (key z)); [|lia].
      destruct (N.ltb_spec (key z) (key x)); [|lia]. reflexivity.
    + destruct (N.ltb_spec (key y) (key x)) as [Hyx | Hyx].
      * destruct (N.ltb_spec (key y) (key z)); [lia|]. reflexivity.
      * destruct (N.ltb_spec (key z) (key x)); [|lia]. reflexivity.
    + destruct (N.ltb_spec (key y) (key z)); [|lia].
      destruct (N.ltb_spec (key z) (key x)); [lia|].
      rewrite IH. reflexivity.
    + destruct (N.ltb_spec (key y) (key z)); [lia|].
      destruct (N.ltb_spec (key y) (key x)); [lia|].
      destruct (N.ltb_spec (key z) (key x)); [lia|]. reflexivity.
Qed.

(** Appending and sorting again is inserting behind the equal keys. *)
Lemma sorted_snoc l x :
  sorted key (l ++ [x]) = insert_stable key x (sorted key l).
Proof.
  induction l as [|y l IH]; [reflexivity|].
  simpl. rewrite IH. apply insert_commute.
Qed.

Lemma insert_stable_length x l :
  List.length (insert_stable key x l) = S (List.length l).
Proof.
  induction l as [|y l IH]; [reflexivity|]. simpl.
  destruct (key y <? key x); simpl; [reflexivity|]. rewrite IH. reflexivity.
Qed.

Lemma insert_stable_split x l :
  descending key l ->
  exists l1 l2,
    l = l1 ++ l2 /\
    (forall r, In r l1 -> key x <= key r) /\
    (forall r, In r l2 -> key r < key x) /\
    insert_stable key x l = l1 ++ x :: l2.
Proof.
  induction l as [|y l IH]; intros H.
  - exists [], []. simpl.
    split; [reflexivity|]. split; [intros r []|]. split; [intros r [] | reflexivity].
  - apply descending_cons in H. destruct H as [Hl Hy]. simpl.
    destruct (N.ltb_spec (key y) (key x)) as [Hlt | Hge].
    + exists [], (y :: l). simpl.
      split; [reflexivity|]. split; [intros r []|]. split; [|reflexivity].
      intros r [<- | Hr]; [exact Hlt|].
      rewrite Forall_forall in Hy. specialize (Hy r Hr). lia.
    + destruct (IH Hl) as (l1 & l2 & E & H1 & H2 & E').
      exists (y :: l1), l2. simpl. rewrite E'.
      split; [rewrite E; reflexivity|]. split; [|split; [exact H2 | reflexivity]].
      intros r [<- | Hr]; [exact Hge | apply H1; exact Hr].
Qed.

Lemma insert_stable_descending x l :
  descending key l -> descending key (insert_stable key x l).
Proof.
  intros H. rewrite <- (sorted_id H), <- sorted_snoc. apply sorted_descending.
Qed.

Lemma firstn_descending n l : descending key l -> descending key (firstn n l).
Proof.
  revert l. induction n as [|n IH]; intros [|x l] H; simpl;
    try (constructor; fail).
  apply descending_cons in H. destruct H as [Hl Hx].
  apply descending_cons. split; [apply IH; exact Hl|].
  rewrite Forall_forall in *. intros b Hb. apply Hx.
  rewrite <- (firstn_skipn n l). apply in_or_app. left. exact Hb.
Qed.

Lemma firstn_insert_stable n x l :
  firstn n (insert_stable key x (firstn n l)) =
  firstn n (insert_stable key x l).
Proof.
  revert l. induction n as [|n IH]; intros l; [reflexivity|].
  destruct l as [|y l]; [reflexivity|]. simpl.
  destruct (key y <? key x); simpl.
  - f_equal. destruct n as [|n]; [reflexivity|].
    change (y :: firstn n (firstn (S n) l) = y :: firstn n l).
    rewrite firstn_firstn. do 2 f_equal. lia.
  - f_equal. apply IH.
Qed.

End Sorting.

(** ** The list of the largest files *)

Lemma descending_app_lt {A : Type} (key : A -> N) (l1 l2 : list A) :
  descending key (l1 ++ l2) -> NoDup (map key (l1 ++ l2)) ->
  forall a b, In a l1 -> In b l2 -> key b < key a.
Proof.
  induction l1 as [|x l1 IH]; simpl; intros Hd Hn a b Ha Hb; [destruct Ha|].
  apply descending_cons in Hd. destruct Hd as [Hd Hx].
  apply NoDup_cons_iff in Hn. destruct Hn as [Hnx Hn].
  destruct Ha as [<- | Ha]; [|apply (IH Hd Hn a b Ha Hb)].
  assert (Hin : In b (l1 ++ l2)) by (apply in_or_app; right; exact Hb).
  rewrite Forall_forall in Hx. specialize (Hx b Hin).
  assert (key b <> key x).
  { intros E. apply Hnx. rewrite <- E. apply in_map. exact Hin. }
  lia.
Qed.

Lemma process_list_spec fd l :
  descending size l ->
  process_list fd l =
  (if (20 <? List.length (insert_stable size fd l))%nat
   then removelast (insert_stable size fd l)
   else insert_stable size fd l).
Proof.
  intros H. unfold process_list.
  rewrite sorted_snoc, (sorted_id H). reflexivity.
Qed.

Lemma process_list_firstn fd l :
  descending size l ->
  process_list fd (firstn 20 l) = firstn 20 (insert_stable size fd l).
Proof.
  intros H.
  rewrite process_list_spec by (apply firstn_descending; exact H).
  rewrite <- (firstn_insert_stable size 20 fd l).
  set (l2 := insert_stable size fd (firstn 20 l)).
  assert (Hlen : (List.length l2 <= 21)%nat).
  { unfold l2. rewrite insert_stable_length.
    pose proof (firstn_le_length 20 l). lia. }
  destruct (Nat.ltb_spec 20 (List.length l2)) as [Hgt | Hle].
  - rewrite removelast_firstn_len. f_equal. lia.
  - symmetry. apply firstn_all2. exact Hle.
Qed.

(** After any stream of records the list is the first 20 of the stream
    sorted. *)
Lemma fold_process_list rs :
  fold_left (fun l r => process_list r l) rs [] = firstn 20 (sorted size rs).
Proof.
  induction rs as [|x rs IH] using rev_ind; [reflexivity|].
  rewrite fold_left_app. simpl. rewrite IH.
  rewrite process_list_firstn by apply sorted_descending.
  rewrite sorted_snoc. reflexivity.
Qed.

Lemma process_list_length fd l :
  descending size l -> (List.length l <= 20)%nat ->
  (List.length (process_list fd l) <= 20)%nat.
Proof.
  intros Hd Hl. rewrite process_list_spec by exact Hd.
  pose proof (insert_stable_length size fd l) as E.
  destruct (Nat.ltb_spec 20 (List.length (insert_stable size fd l))).
  - rewrite removelast_firstn_len, length_firstn. lia.
  - lia.
Qed.

Lemma process_list_descending fd l :
  descending size l -> descending size (process_list fd l).
Proof.
  intros Hd. rewrite process_list_spec by exact Hd.
  destruct (_ <? _)%nat.
  - rewrite removelast_firstn_len. apply firstn_descending.
    apply insert_stable_descending. exact Hd.
  - apply insert_stable_descending. exact Hd.
Qed.

Lemma files_process_files fd self :
  files (_process_files fd self) = process_list fd (files self).
Proof.
  unfold _process_files, process_list, _sort_files_list.
  cbn [files set_files].
  destruct (Nat.leb 21 _); reflexivity.
Qed.

Lemma process_files_other fd self :
  _activity (_process_files fd self) = _activity self /\
  _dirs_holder (_process_files fd self) = _dirs_holder self /\
  dir_count (_process_files fd self) = dir_count self /\
  dirs (_process_files fd self) = dirs self /\
  file_count (_process_files fd self) = file_count self /\
  partition (_process_files fd self) = partition self.
Proof.
  unfold _process_files.
  destruct (Nat.leb 21 _); repeat split; reflexivity.
Qed.

Lemma files_fold_process rs self :
  files (fold_left (fun s r => _process_files r s) rs self) =
  fold_left (fun l r => process_list r l) rs (files self).
Proof.
  revert self. induction rs as [|r rs IH]; intros self; [reflexivity|].
  simpl. rewrite IH, files_process_files. reflexivity.
Qed.

(** C2. For every sequence of records handed to [_process_files], starting
    from the empty list, and every further record [fd]: after the insertion
    of [fd] the list has at most 20 entries and is descending by size;
    [fd] was placed behind every entry at least as large and in front of
    every smaller one, the others keeping their order, and the last entry
    was dropped when that made more than 20. *)
Theorem C2_top_files_after_each_insertion :
  forall (self0 : DiskUsage) (rs : list DottedDict) (fd : DottedDict),
    let self := fold_left (fun s r => _process_files r s) rs (set_files [] self0) in
    let self' := _process_files fd self in
    (List.length (files self') <= 20)%nat /\
    descending size (files self') /\
    exists l1 l2,
      files self = l1 ++ l2 /\
      (forall r, In r l1 -> size fd <= size r) /\
      (forall r, In r l2 -> size r < size fd) /\
      files self' =
      (if (20 <? List.length (l1 ++ fd :: l2))%nat
       then removelast (l1 ++ fd :: l2)
       else l1 ++ fd :: l2).
Proof.
  intros self0 rs fd self self'.
  assert (E : files self = firstn 20 (sorted size rs)).
  { unfold self. rewrite files_fold_process. simpl. apply fold_process_list. }
  assert (Hd : descending size (files self)).
  { rewrite E. apply firstn_descending, sorted_descending. }
  assert (Hl : (List.length (files self) <= 20)%nat).
  { rewrite E. apply firstn_le_length. }
  unfold self'. rewrite files_process_files.
  split; [apply process_list_length; assumption|].
  split; [apply process_list_descending; assumption|].
  destruct (insert_stable_split fd Hd) as (l1 & l2 & E1 & H1 & H2 & E2).
  exists l1, l2.
  split; [exact E1|]. split; [exact H1|]. split; [exact H2|].
  rewrite process_list_spec by exact Hd. rewrite E2. reflexivity.
Qed.

(** ** The walk *)

Lemma assoc_In {B : Type} k (l : list (string * B)) b :
  assoc k l = Some b -> In (k, b) l.
Proof.
  induction l as [|[k' b'] l IH]; simpl; [discriminate|].
  destruct (String.eqb_spec k k') as [-> | Hne].
  - intros [= ->]. left. reflexivity.
  - intros H. right. apply IH. exact H.
Qed.

Lemma assoc_map {B C : Type} (f : string -> B -> C) k (l : list (string * B)) :
  assoc k (map (fun p : string * B => let '(d, b) := p in (d, f d b)) l) =
  option_map (f k) (assoc k l).
Proof.
  induction l as [|[k' b'] l IH]; simpl; [reflexivity|].
  destruct (String.eqb_spec k k') as [-> | Hne]; [reflexivity | exact IH].
Qed.

Lemma assoc_filter {B : Type} (keep : string -> bool) k (l : list (string * B)) :
  assoc k (filter (fun p => keep (fst p)) l) =
  if keep k then assoc k l else None.
Proof.
  induction l as [|[k' b'] l IH]; simpl; [destruct (keep k); reflexivity|].
  destruct (keep k') eqn:Ek'; simpl.
  - destruct (String.eqb_spec k k') as [-> | Hne].
    + rewrite Ek'. reflexivity.
    + exact IH.
  - rewrite IH. destruct (String.eqb_spec k k') as [-> | Hne]; [|reflexivity].
    rewrite Ek'. reflexivity.
Qed.

Lemma fold_left_snoc {B : Type} (l acc : list B) :
  fold_left (fun a y => a ++ [y]) l acc = acc ++ l.
Proof.
  revert acc. induction l as [|y l IH]; intros acc; simpl.
  - rewrite app_nil_r. reflexivity.
  - rewrite IH, <- app_assoc. reflexivity.
Qed.

Lemma fold_left_flat_map {B C S : Type} (f : S -> C -> S) (h : B -> list C) l s :
  fold_left f (flat_map h l) s = fold_left (fun s y => fold_left f (h y) s) l s.
Proof.
  revert s. induction l as [|y l IH]; intros s; simpl; [reflexivity|].
  rewrite fold_left_app. apply IH.
Qed.

Lemma descend_cons {S : Type} (D : list (string * (S -> S))) d K s :
  descend D (d :: K) s =
  descend D K (match assoc d D with Some k => k s | None => s end).
Proof. reflexivity. Qed.

Section Walk.

(** How the loop body filters [dirs]. *)
Variable flt : string -> list string -> list string.

Lemma fold_record_yield Y acc :
  acc ++ Y = fold_left (fun s y => record_yield (fst y) (snd y) s) Y acc.
Proof.
  unfold record_yield. revert acc.
  induction Y as [|[r f] Y IHY]; intros acc; simpl.
  - apply app_nil_r.
  - rewrite <- IHY, <- app_assoc. reflexivity.
Qed.

(** Whatever the body computes, the walk is a fold of it over the
    sequence of yields. *)
Lemma os_walk_fold t :
  forall top (S : Type) (g : string -> list string -> S -> S) (s : S),
    os_walk (body_of flt g) top t s =
    fold_left (fun s y => g (fst y) (snd y) s) (yields flt top t) s.
Proof.
  induction t as [subdirs nondirs IH] using tree_nested_ind.
  intros top S g s. unfold yields. simpl.
  unfold record_yield at 2. simpl.
  change (g top nondirs s)
    with (fold_left (fun s y => g (fst y) (snd y) s) [(top, nondirs)] s).
  generalize [(top, nondirs)] as acc.
  generalize (flt top (map fst subdirs)) as K.
  induction K as [|d K IHK]; intros acc; [reflexivity|].
  rewrite !descend_cons, <- IHK. f_equal.
  rewrite (assoc_map (fun d sub => os_walk (body_of flt record_yield) (join top d) sub)).
  rewrite (assoc_map (fun d sub => os_walk (body_of flt g) (join top d) sub)).
  destruct (assoc d subdirs) as [sub|] eqn:E; simpl; [|reflexivity].
  apply assoc_In in E. rewrite Forall_forall in IH.
  specialize (IH _ E). simpl in IH.
  rewrite (IH (join top d) _ record_yield acc).
  rewrite (IH (join top d) S g).
  rewrite <- fold_left_app. f_equal.
  apply fold_record_yield.
Qed.

Lemma os_walk_yields_acc top t acc :
  os_walk (body_of flt record_yield) top t acc = acc ++ yields flt top t.
Proof. rewrite os_walk_fold. symmetry. apply fold_record_yield. Qed.

(** The sequence of yields, node by node. *)
Lemma yields_Node top subdirs nondirs :
  yields flt top (Node subdirs nondirs) =
  (top, nondirs) ::
  flat_map
    (fun d =>
       match assoc d subdirs with
       | Some sub => yields flt (join top d) sub
       | None => []
       end)
    (flt top (map fst subdirs)).
Proof.
  assert (H : forall K acc,
    descend
      (map (fun p : string * tree =>
              let '(d, sub) := p in
              (d, os_walk (body_of flt record_yield) (join top d) sub))
           subdirs)
      K acc =
    acc ++
    flat_map
      (fun d =>
         match assoc d subdirs with
         | Some sub => yields flt (join top d) sub
         | None => []
         end)
      K).
  { induction K as [|d K IHK]; intros acc.
    - simpl. rewrite app_nil_r. reflexivity.
    - rewrite descend_cons, IHK.
      rewrite (assoc_map (fun d sub => os_walk (body_of flt record_yield) (join top d) sub)).
      cbn [flat_map].
      destruct (assoc d subdirs) as [sub|]; cbn [option_map].
      + rewrite os_walk_yields_acc, <- app_assoc. reflexivity.
      + reflexivity. }
  unfold yields at 1. simpl. rewrite H. reflexivity.
Qed.

End Walk.

(** ** The scan as a fold over the entries *)

Lemma fold_left_map {B C S : Type} (f : S -> C -> S) (h : B -> C) l s :
  fold_left f (map h l) s = fold_left (fun s b => f s (h b)) l s.
Proof.
  revert s. induction l as [|b l IH]; intros s; simpl; [reflexivity | apply IH].
Qed.

Lemma fold_left_ext_eq {B S : Type} (f g : S -> B -> S) l s :
  (forall s b, f s b = g s b) -> fold_left f l s = fold_left g l s.
Proof.
  intros H. revert s. induction l as [|b l IH]; intros s; simpl; [reflexivity|].
  rewrite H. apply IH.
Qed.

(** One step of the inner loop, opened up to the field [f]. *)
Ltac open_visit f := unfold visit, visit_file, _add_up_dir; cbn [f].

(** [_process_files] touches [files] only. *)
Ltac through_process_files :=
  match goal with
  | |- context [_process_files ?fd ?s] =>
      let H := fresh in
      pose proof (process_files_other fd s) as H;
      destruct H as (? & ?H & ? & ?H & ?H & ?H);
      repeat match goal with
             | E : _ (_process_files fd s) = _ |- _ => rewrite E; clear E
             end;
      reflexivity
  end.

Section Scan.

Variable os_stat : string -> option stat_result.
Variable os_path_ismount : string -> bool.
Variable same_object : bool.

Local Abbreviation visit' := (visit os_stat).
Local Abbreviation record_of' := (record_of os_stat).
Local Abbreviation walk_files' := (walk_files os_path_ismount same_object).
Local Abbreviation walk_loop' := (walk_loop os_stat os_path_ismount same_object).

Lemma walk_loop_fold target t self :
  walk_loop' target t self = fold_left visit' (walk_files' target t) self.
Proof.
  unfold walk_loop, walk_files.
  change (os_walk (walk_body os_stat os_path_ismount same_object))
    with (os_walk (body_of (_filter_dirs os_path_ismount same_object)
                     (fun root files s => fold_left (visit_file os_stat root) files s))).
  rewrite os_walk_fold, fold_left_flat_map.
  apply fold_left_ext_eq. intros s y.
  rewrite fold_left_map. reflexivity.
Qed.

Lemma visit_files self e :
  files (visit' self e) = process_list (record_of' e) (files self).
Proof. open_visit files. rewrite files_process_files. reflexivity. Qed.

Lemma visit_file_count self e :
  file_count (visit' self e) = file_count self + 1.
Proof. open_visit file_count. through_process_files. Qed.

Lemma visit_dirs_holder self e :
  _dirs_holder (visit' self e) =
  add_up (fst e) (size (record_of' e)) (_dirs_holder self).
Proof. open_visit _dirs_holder. unfold add_up. through_process_files. Qed.

Lemma visit_dirs self e : dirs (visit' self e) = dirs self.
Proof. open_visit dirs. through_process_files. Qed.

Lemma visit_partition self e : partition (visit' self e) = partition self.
Proof. open_visit partition. through_process_files. Qed.

Lemma fold_visit_files es self :
  files (fold_left visit' es self) =
  fold_left (fun l r => process_list r l) (map record_of' es) (files self).
Proof.
  revert self. induction es as [|e es IH]; intros self; [reflexivity|].
  simpl. rewrite IH, visit_files. reflexivity.
Qed.

Lemma fold_visit_file_count es self :
  file_count (fold_left visit' es self) = file_count self + N.of_nat (List.length es).
Proof.
  revert self. induction es as [|e es IH]; intros self.
  - simpl. lia.
  - cbn [fold_left List.length]. rewrite IH, visit_file_count. lia.
Qed.

Lemma fold_visit_dirs_holder es self :
  _dirs_holder (fold_left visit' es self) =
  fold_left (fun d e => add_up (fst e) (size (record_of' e)) d) es (_dirs_holder self).
Proof.
  revert self. induction es as [|e es IH]; intros self; [reflexivity|].
  simpl. rewrite IH, visit_dirs_holder. reflexivity.
Qed.

Lemma fold_visit_dirs es self : dirs (fold_left visit' es self) = dirs self.
Proof.
  revert self. induction es as [|e es IH]; intros self; [reflexivity|].
  simpl. rewrite IH. apply visit_dirs.
Qed.

Lemma fold_visit_partition es self :
  partition (fold_left visit' es self) = partition self.
Proof.
  revert self. induction es as [|e es IH]; intros self; [reflexivity|].
  simpl. rewrite IH. apply visit_partition.
Qed.

End Scan.

(** ** The dict of directory totals *)

Lemma dict_in_get k d : dict_in k d = true <-> dict_get k d <> None.
Proof.
  induction d as [|[k' v'] d IH]; simpl.
  - split; [discriminate | congruence].
  - destruct (String.eqb k k'); simpl; [|exact IH].
    split; [discriminate | reflexivity].
Qed.

Lemma dict_get_iadd_same k v d :
  dict_get k (dict_iadd k v d) = option_map (fun v' => fadd v' v) (dict_get k d).
Proof.
  induction d as [|[k' v'] d IH]; simpl; [reflexivity|].
  destruct (String.eqb k k') eqn:E; simpl; rewrite E; [reflexivity | exact IH].
Qed.

Lemma dict_get_iadd_other k k0 v d :
  k <> k0 -> dict_get k (dict_iadd k0 v d) = dict_get k d.
Proof.
  intros Hne. induction d as [|[k' v'] d IH]; simpl; [reflexivity|].
  destruct (String.eqb_spec k0 k') as [-> | Hne']; simpl.
  - destruct (String.eqb_spec k k'); [contradiction | reflexivity].
  - rewrite IH. reflexivity.
Qed.

Lemma dict_get_app k d d' :
  dict_get k (d ++ d') =
  match dict_get k d with Some v => Some v | None => dict_get k d' end.
Proof.
  induction d as [|[k' v'] d IH]; simpl; [reflexivity|].
  destruct (String.eqb k k'); [reflexivity | exact IH].
Qed.

Lemma dict_get_add_up_same root v d :
  dict_get root (add_up root v d) =
  Some (match dict_get root d with Some v' => fadd v' v | None => v end).
Proof.
  unfold add_up. destruct (dict_in root d) eqn:E.
  - rewrite dict_get_iadd_same. apply dict_in_get in E.
    destruct (dict_get root d); [reflexivity | congruence].
  - unfold dict_new. rewrite dict_get_app.
    destruct (dict_get root d) eqn:G.
    + assert (dict_in root d = true) by (apply dict_in_get; congruence).
      congruence.
    + simpl. rewrite String.eqb_refl. reflexivity.
Qed.

Lemma dict_get_add_up_other k root v d :
  k <> root -> dict_get k (add_up root v d) = dict_get k d.
Proof.
  intros Hne. unfold add_up. destruct (dict_in root d).
  - apply dict_get_iadd_other. exact Hne.
  - unfold dict_new. rewrite dict_get_app.
    destruct (dict_get k d); [reflexivity|]. simpl.
    destruct (String.eqb_spec k root); [contradiction | reflexivity].
Qed.

Lemma dict_iadd_representable k v d :
  Forall representable (map snd d) ->
  Forall representable (map snd (dict_iadd k v d)).
Proof.
  induction d as [|[k' v'] d IH]; simpl; intros H; [constructor|].
  inversion H; subst.
  destruct (String.eqb k k'); simpl; constructor; auto.
  apply representable_float.
Qed.

Lemma add_up_representable root v d :
  representable v ->
  Forall representable (map snd d) ->
  Forall representable (map snd (add_up root v d)).
Proof.
  intros Hv Hd. unfold add_up. destruct (dict_in root d).
  - apply dict_iadd_representable. exact Hd.
  - unfold dict_new. rewrite map_app. apply Forall_app. split; [exact Hd|].
    constructor; [exact Hv | constructor].
Qed.

Lemma dict_get_representable k d v :
  Forall representable (map snd d) -> dict_get k d = Some v -> representable v.
Proof.
  induction d as [|[k' v'] d IH]; simpl; intros H; [discriminate|].
  inversion H; subst.
  destruct (String.eqb k k'); [intros [= <-]; assumption | apply IH; assumption].
Qed.

Lemma insert_stable_zero {A : Type} (key : A -> N) x l :
  key x = 0 -> insert_stable key x l = l ++ [x].
Proof.
  intros H. induction l as [|y l IH]; simpl; [reflexivity|].
  rewrite H. destruct (N.ltb_spec (key y) 0); [lia|]. rewrite IH. reflexivity.
Qed.

Lemma sum_N_perm l l' : Permutation l l' -> sum_N l = sum_N l'.
Proof.
  induction 1; simpl; try lia.
Qed.

Lemma sum_N_app l l' : sum_N (l ++ l') = sum_N l + sum_N l'.
Proof. induction l as [|x l IH]; simpl; lia. Qed.

Lemma dict_total_iadd k v d :
  dict_in k d = true -> dict_total d + v <= 2 ^ 53 ->
  dict_total (dict_iadd k v d) = dict_total d + v.
Proof.
  unfold dict_total.
  induction d as [|[k' v'] d IH]; simpl; [discriminate|].
  destruct (String.eqb k k'); simpl; intros Hin Hb.
  - rewrite fadd_exact by lia. lia.
  - rewrite IH by (assumption || lia). lia.
Qed.

Lemma dict_total_add_up root v d :
  dict_total d + v <= 2 ^ 53 -> dict_total (add_up root v d) = dict_total d + v.
Proof.
  intros H. unfold add_up. destruct (dict_in root d) eqn:E.
  - apply dict_total_iadd; assumption.
  - unfold dict_new, dict_total. rewrite map_app, sum_N_app. simpl. lia.
Qed.

Lemma dict_in_keys k d : dict_in k d = true <-> In k (map fst d).
Proof.
  induction d as [|[k' v'] d IH]; simpl; [split; [discriminate | tauto]|].
  destruct (String.eqb_spec k k') as [-> | Hne]; simpl.
  - split; auto.
  - rewrite IH. split; [auto | intros [E | H]; [congruence | exact H]].
Qed.

Lemma dict_iadd_keys k v d : map fst (dict_iadd k v d) = map fst d.
Proof.
  induction d as [|[k' v'] d IH]; simpl; [reflexivity|].
  destruct (String.eqb k k'); simpl; [reflexivity | rewrite IH; reflexivity].
Qed.

Lemma add_up_keys root v d :
  map fst (add_up root v d) =
  if dict_in root d then map fst d else map fst d ++ [root].
Proof.
  unfold add_up. destruct (dict_in root d).
  - apply dict_iadd_keys.
  - unfold dict_new. rewrite map_app. reflexivity.
Qed.

Lemma add_up_keys_NoDup root v d :
  NoDup (map fst d) -> NoDup (map fst (add_up root v d)).
Proof.
  intros H. rewrite add_up_keys. destruct (dict_in root d) eqn:E; [exact H|].
  apply NoDup_app; [exact H | constructor; [intros [] | constructor] |].
  intros a Ha [<- | []].
  apply dict_in_keys in Ha. congruence.
Qed.

Lemma add_up_keys_In root v d k :
  In k (map fst (add_up root v d)) <-> In k (map fst d) \/ k = root.
Proof.
  rewrite add_up_keys. destruct (dict_in root d) eqn:E.
  - split; [auto|]. intros [H | ->]; [exact H|]. apply dict_in_keys. exact E.
  - rewrite in_app_iff. simpl. intuition congruence.
Qed.

Lemma fold_left_snoc_map {B C : Type} (h : B -> C) l acc :
  fold_left (fun a kv => a ++ [h kv]) l acc = acc ++ map h l.
Proof.
  revert acc. induction l as [|y l IH]; intros acc; simpl.
  - rewrite app_nil_r. reflexivity.
  - rewrite IH, <- app_assoc. reflexivity.
Qed.

Lemma descending_map_dir_entry l :
  descending (@snd string N) l -> descending size (map dir_entry l).
Proof.
  induction l as [|x l IH]; intros H; simpl; [constructor|].
  apply descending_cons in H. destruct H as [Hl Hx].
  apply descending_cons. split; [apply IH; exact Hl|].
  rewrite Forall_map. exact Hx.
Qed.

Lemma filter_idem {B : Type} (f : B -> bool) l :
  filter f (filter f l) = filter f l.
Proof.
  induction l as [|x l IH]; simpl; [reflexivity|].
  destruct (f x) eqn:E; simpl; [rewrite E, IH; reflexivity | exact IH].
Qed.


Lemma flat_map_ext_in {B C : Type} (f g : B -> list C) l :
  (forall x, In x l -> f x = g x) -> flat_map f l = flat_map g l.
Proof.
  induction l as [|x l IH]; intros H; simpl; [reflexivity|].
  rewrite (H x) by (left; reflexivity).
  rewrite IH; [reflexivity|]. intros y Hy. apply H. right. exact Hy.
Qed.

Lemma map_fst_filter {B : Type} (keep : string -> bool) (l : list (string * B)) :
  map fst (filter (fun p => keep (fst p)) l) = filter keep (map fst l).
Proof.
  induction l as [|[k b] l IH]; simpl; [reflexivity|].
  destruct (keep k); simpl; rewrite IH; reflexivity.
Qed.

Lemma map_fst_map_keyed {B C : Type} (f : string -> B -> C) (l : list (string * B)) :
  map fst (map (fun p : string * B => let '(d, b) := p in (d, f d b)) l) =
  map fst l.
Proof.
  induction l as [|[k b] l IH]; simpl; [reflexivity|]. rewrite IH. reflexivity.
Qed.

(** ** Records of size 0 and the others *)

Lemma firstn_In {A : Type} n (l : list A) x : In x (firstn n l) -> In x l.
Proof.
  intros H. rewrite <- (firstn_skipn n l). apply in_or_app. left. exact H.
Qed.

Lemma filter_swap {B : Type} (f g : B -> bool) l :
  filter f (filter g l) = filter g (filter f l).
Proof.
  induction l as [|x l IH]; simpl; [reflexivity|].
  destruct (f x) eqn:Ef, (g x) eqn:Eg; simpl; rewrite ?Ef, ?Eg, IH; reflexivity.
Qed.

Lemma filter_descending {A : Type} (key : A -> N) (f : A -> bool) l :
  descending key l -> descending key (filter f l).
Proof.
  induction l as [|x l IH]; simpl; intros H; [constructor|].
  apply descending_cons in H. destruct H as [Hl Hx].
  destruct (f x); [|apply IH; exact Hl].
  apply descending_cons. split; [apply IH; exact Hl|].
  rewrite Forall_forall in *. intros b Hb. apply Hx.
  apply filter_In in Hb. apply Hb.
Qed.

(** Sorting and then dropping elements is dropping them and then sorting. *)
Lemma filter_sorted {A : Type} (key : A -> N) (f : A -> bool) l :
  filter f (sorted key l) = sorted key (filter f l).
Proof.
  apply sorted_unique.
  - apply filter_descending, sorted_descending.
  - intros k. rewrite filter_swap, sorted_stable. apply filter_swap.
Qed.

(** In a descending list the elements of key 0 come last: cutting the list
    and then dropping them is dropping them and then cutting. *)
Lemma filter_nonzero_firstn {A : Type} (key : A -> N) n l :
  descending key l ->
  filter (fun x => 0 <? key x) (firstn n l) =
  firstn n (filter (fun x => 0 <? key x) l).
Proof.
  revert l. induction n as [|n IH]; intros [|x l] H; try reflexivity.
  apply descending_cons in H. destruct H as [Hl Hx]. simpl.
  destruct (N.ltb_spec 0 (key x)) as [Hp | Hz].
  - simpl. rewrite IH by exact Hl. reflexivity.
  - assert (E : forall l', (forall b, In b l' -> In b l) ->
                  filter (fun x => 0 <? key x) l' = []).
    { intros l' Hin. induction l' as [|y l' IH']; [reflexivity|]. simpl.
      rewrite Forall_forall in Hx.
      assert (key y <= key x) by (apply Hx, Hin; left; reflexivity).
      destruct (N.ltb_spec 0 (key y)); [lia|].
      apply IH'. intros b Hb. apply Hin. right. exact Hb. }
    rewrite (E (firstn n l)) by (intros b Hb; eapply firstn_In; exact Hb).
    rewrite (E l) by auto. destruct n; reflexivity.
Qed.

Section Claims.

Variable os_stat : string -> option stat_result.
Variable os_path_ismount : string -> bool.
Variable same_object : bool.
Variable os_statvfs : string -> option statvfs_result.

Lemma filter_dirs_nil root : _filter_dirs os_path_ismount same_object root [] = [].
Proof.
  unfold _filter_dirs. simpl.
  destruct (String.eqb root "/" && same_object); reflexivity.
Qed.

Lemma walk_files_leaf target names :
  walk_files os_path_ismount same_object target (Node [] names) = map (pair target) names.
Proof.
  unfold walk_files, walk_yields.
  change (os_walk _ target (Node [] names) [])
    with (yields (_filter_dirs os_path_ismount same_object) target (Node [] names)).
  rewrite yields_Node. simpl map. rewrite filter_dirs_nil. simpl.
  apply app_nil_r.
Qed.

Lemma disk_files_walk target t self :
  disk_files (_walk_filesystem os_stat os_path_ismount same_object target t self) =
  fold_left (fun l r => process_list r l)
    (map (record_of os_stat) (walk_files os_path_ismount same_object target t))
    (files self).
Proof.
  unfold _walk_filesystem, _remove_activity, _sort_dirs. cbn [disk_files].
  rewrite walk_loop_fold. apply fold_visit_files.
Qed.

(** The file count is the number of entries processed, and the partition
    figures pass through the walk untouched. *)
Lemma disk_file_count_walk target t p :
  disk_file_count (_walk_filesystem os_stat os_path_ismount same_object target t (probed p)) =
  N.of_nat (List.length (walk_files os_path_ismount same_object target t)).
Proof.
  unfold _walk_filesystem, _remove_activity, _sort_dirs. cbn [disk_file_count].
  rewrite walk_loop_fold, fold_visit_file_count. reflexivity.
Qed.

Lemma disk_partition_walk target t p :
  disk_partition (_walk_filesystem os_stat os_path_ismount same_object target t (probed p)) = p.
Proof.
  unfold _walk_filesystem, _remove_activity, _sort_dirs. cbn [disk_partition].
  rewrite walk_loop_fold, fold_visit_partition. reflexivity.
Qed.

(** C3, as the code has it.  When one directory holds 25 entries whose
    records have pairwise distinct sizes, the sizes being those the records
    carry, [float(st_size)], then in whatever order the listing gives the
    entries the final list of files has 20 entries, descending, and the
    emitted records split into that list and 5 others, each of them smaller
    than every record of the list. *)
Theorem C3_largest_20_of_25 :
  forall (target : string) (names : list string) (p : option Partition),
    let records := map (fun n => _get_file_data os_stat (join target n)) names in
    let disk :=
      _walk_filesystem os_stat os_path_ismount same_object target (Node [] names) (probed p) in
    List.length names = 25%nat ->
    NoDup (map size records) ->
    List.length (disk_files disk) = 20%nat /\
    descending size (disk_files disk) /\
    exists small,
      Permutation records (disk_files disk ++ small) /\
      List.length small = 5%nat /\
      forall a b, In a (disk_files disk) -> In b small -> size b < size a.
Proof.
  intros target names p records disk Hlen Hnd.
  assert (E : disk_files disk = firstn 20 (sorted size records)).
  { unfold disk. rewrite disk_files_walk, walk_files_leaf, map_map.
    apply fold_process_list. }
  assert (Hr : List.length records = 25%nat).
  { unfold records. rewrite length_map. exact Hlen. }
  rewrite E. split.
  { rewrite length_firstn, sorted_length, Hr. reflexivity. }
  split.
  { apply firstn_descending, sorted_descending. }
  exists (skipn 20 (sorted size records)).
  rewrite firstn_skipn. split; [apply sorted_perm|]. split.
  { rewrite length_skipn, sorted_length, Hr. reflexivity. }
  apply descending_app_lt; rewrite firstn_skipn.
  - apply sorted_descending.
  - eapply Permutation_NoDup; [|exact Hnd].
    apply Permutation_map, sorted_perm.
Qed.

(** *** States the walk passes through *)

Lemma record_size_representable e : representable (size (record_of os_stat e)).
Proof.
  unfold record_of, _get_file_data.
  destruct (os_stat _); simpl; [apply representable_float | apply representable_0].
Qed.

Lemma fold_add_up_representable es d :
  Forall representable (map snd d) ->
  Forall representable
    (map snd (fold_left (fun d e => add_up (fst e) (size (record_of os_stat e)) d) es d)).
Proof.
  revert d. induction es as [|e es IH]; intros d H; [exact H|].
  simpl. apply IH, add_up_representable; [apply record_size_representable | exact H].
Qed.

Lemma reached_files p es :
  files (fold_left (visit os_stat) es (probed p)) =
  firstn 20 (sorted size (map (record_of os_stat) es)).
Proof. rewrite fold_visit_files. apply fold_process_list. Qed.

Lemma reached_dirs_holder_representable p es :
  Forall representable
    (map snd (_dirs_holder (fold_left (visit os_stat) es (probed p)))).
Proof.
  rewrite fold_visit_dirs_holder. apply fold_add_up_representable. constructor.
Qed.

(** *** Failed entries and the list of files *)

Lemma visit_file_try_returns self root name :
  visit_file_try (raising os_stat) root self name =
  Ok (visit_file os_stat root self name).
Proof.
  unfold visit_file_try, _get_file_data_try, raising, visit_file, _get_file_data.
  destruct (os_stat (join root name)); reflexivity.
Qed.

Lemma positive_records_of_succeeding es :
  filter positive (map (record_of os_stat) es) =
  filter positive (map (record_of os_stat) (filter (stat_succeeds os_stat) es)).
Proof.
  induction es as [|e es IH]; [reflexivity|]. cbn [map filter].
  destruct (os_stat (join (fst e) (snd e))) as [st|] eqn:E.
  - assert (Es : stat_succeeds os_stat e = true).
    { unfold stat_succeeds. rewrite E. reflexivity. }
    rewrite Es. cbn [map filter].
    destruct (positive (record_of os_stat e)); rewrite IH; reflexivity.
  - assert (Es : stat_succeeds os_stat e = false).
    { unfold stat_succeeds. rewrite E. reflexivity. }
    assert (Er : record_of os_stat e = sentinel).
    { unfold record_of, _get_file_data. rewrite E. reflexivity. }
    rewrite Es, Er. exact IH.
Qed.

Lemma positive_files_of_succeeding p es :
  filter positive (files (fold_left (visit os_stat) es (probed p))) =
  filter positive
    (files (fold_left (visit os_stat) (filter (stat_succeeds os_stat) es) (probed p))).
Proof.
  rewrite !reached_files. unfold positive.
  rewrite !(@filter_nonzero_firstn _ size) by apply sorted_descending.
  rewrite !(filter_sorted size).
  fold positive. rewrite <- positive_records_of_succeeding. reflexivity.
Qed.

(** C4, as the code has it.  At any point of the walk, for an entry on
    which [os.stat] raises [OSError]: the step returns and raises nothing,
    the exception being caught; the record is the one of size 0 without
    name and time; the file count goes up by exactly 1, as for any entry;
    the total of the directory keeps its value (0 if the directory had none
    yet) and the other totals are untouched; the list of files either gains
    the record at its end (fewer than 20 entries) or is unchanged, so that
    no record is removed by the insertion.  Over a whole stream the records
    of a size other than 0 in the list are those that would be there had
    the failing entries not been met; a record of size 0 of a real file is
    not covered: it ranks with the failed ones in the order of arrival. *)
Theorem C4_stat_failure_is_absorbed :
  forall (p : option Partition) (es : list (string * string))
         (root name : string),
    let self := fold_left (visit os_stat) es (probed p) in
    let self' := visit_file os_stat root self name in
    os_stat (join root name) = None ->
    visit_file_try (raising os_stat) root self name = Ok self' /\
    _get_file_data_try (raising os_stat) (join root name) = Ok sentinel /\
    _get_file_data os_stat (join root name) = sentinel /\
    file_count self' = file_count self + 1 /\
    dict_get root (_dirs_holder self') =
      Some (match dict_get root (_dirs_holder self) with
            | Some v => v
            | None => 0
            end) /\
    (forall k, k <> root ->
       dict_get k (_dirs_holder self') = dict_get k (_dirs_holder self)) /\
    files self' =
      (if (List.length (files self) <? 20)%nat
       then files self ++ [sentinel]
       else files self) /\
    (forall s r n, file_count (visit_file os_stat r s n) = file_count s + 1) /\
    (forall q es',
       filter positive (files (fold_left (visit os_stat) es' (probed q))) =
       filter positive
         (files (fold_left (visit os_stat)
                   (filter (stat_succeeds os_stat) es') (probed q)))).
Proof.
  intros p es root name self self' Hstat.
  assert (Hrec : record_of os_stat (root, name) = sentinel).
  { unfold record_of, _get_file_data. simpl. rewrite Hstat. reflexivity. }
  split; [apply visit_file_try_returns|].
  split.
  { unfold _get_file_data_try, raising. rewrite Hstat. reflexivity. }
  change self' with (visit os_stat self (root, name)).
  split; [exact Hrec|].
  split; [apply visit_file_count|].
  rewrite visit_dirs_holder, visit_files, Hrec. cbn [fst size sentinel].
  split; [|split; [|split; [|split]]].
  - rewrite dict_get_add_up_same.
    destruct (dict_get root (_dirs_holder self)) as [v|] eqn:G; [|reflexivity].
    f_equal. apply fadd_0_r.
    eapply dict_get_representable; [|exact G].
    apply reached_dirs_holder_representable.
  - intros k Hk. apply dict_get_add_up_other. exact Hk.
  - assert (Hd : descending size (files self)).
    { unfold self. rewrite reached_files.
      apply firstn_descending, sorted_descending. }
    assert (Hl : (List.length (files self) <= 20)%nat).
    { unfold self. rewrite reached_files. apply firstn_le_length. }
    rewrite process_list_spec by exact Hd.
    rewrite insert_stable_zero by reflexivity.
    rewrite length_app. simpl List.length.
    destruct (Nat.ltb_spec (List.length (files self)) 20) as [Hlt | Hge].
    + destruct (Nat.ltb_spec 20 (List.length (files self) + 1)); [lia|].
      reflexivity.
    + destruct (Nat.ltb_spec 20 (List.length (files self) + 1)); [|lia].
      apply removelast_last.
  - intros s r n. apply (visit_file_count os_stat s (r, n)).
  - intros q es'. apply positive_files_of_succeeding.
Qed.

(** *** Directory totals *)

Lemma record_size_float e :
  size (record_of os_stat e) = float (stat_size os_stat e).
Proof.
  unfold record_of, stat_size, _get_file_data.
  destruct (os_stat _); reflexivity.
Qed.

(** Byte sizes that are pairwise distinct and at most [2^53] stay pairwise
    distinct in the records. *)
Lemma distinct_bytes_distinct_records es :
  Forall (fun e => stat_size os_stat e <= 2 ^ 53) es ->
  NoDup (map (stat_size os_stat) es) ->
  NoDup (map (fun e => size (record_of os_stat e)) es).
Proof.
  intros Hb Hn.
  assert (E : map (fun e => size (record_of os_stat e)) es =
              map (stat_size os_stat) es).
  { apply map_ext_in. intros e He. rewrite record_size_float.
    apply float_exact. rewrite Forall_forall in Hb. apply Hb. exact He. }
  rewrite E. exact Hn.
Qed.

Lemma fold_add_up_total es d :
  dict_total d + sum_N (map (stat_size os_stat) es) <= 2 ^ 53 ->
  dict_total
    (fold_left (fun d e => add_up (fst e) (size (record_of os_stat e)) d) es d) =
  dict_total d + sum_N (map (stat_size os_stat) es).
Proof.
  revert d. induction es as [|e es IH]; intros d H; simpl in *.
  - lia.
  - assert (Es : size (record_of os_stat e) = stat_size os_stat e).
    { rewrite record_size_float. apply float_exact. lia. }
    assert (Et : dict_total (add_up (fst e) (size (record_of os_stat e)) d) =
                 dict_total d + stat_size os_stat e).
    { rewrite Es. apply dict_total_add_up. lia. }
    rewrite IH; rewrite Et; lia.
Qed.

Lemma walk_loop_dirs target t p :
  dirs (walk_loop os_stat os_path_ismount same_object target t (probed p)) = [].
Proof. rewrite walk_loop_fold. apply fold_visit_dirs. Qed.

Lemma sorted_dirs_walk target t p :
  sorted_dirs (walk_loop os_stat os_path_ismount same_object target t (probed p)) =
  map dir_entry
    (sorted (@snd string N)
       (_dirs_holder (walk_loop os_stat os_path_ismount same_object target t (probed p)))).
Proof.
  unfold sorted_dirs. rewrite walk_loop_dirs.
  apply (fold_left_snoc_map dir_entry).
Qed.

(** C5, as the code has it.  When the sizes of the entries on which
    [os.stat] succeeds add up to at most [2^53] bytes, the directory totals
    at the end of the walk, and the sizes of the complete sorted list
    before its truncation, add up to exactly that sum. *)
Theorem C5_totals_conserve_bytes_up_to_2_53 :
  forall (target : string) (t : tree) (p : option Partition),
    let es := walk_files os_path_ismount same_object target t in
    let self := walk_loop os_stat os_path_ismount same_object target t (probed p) in
    sum_N (map (stat_size os_stat) es) <= 2 ^ 53 ->
    dict_total (_dirs_holder self) = sum_N (map (stat_size os_stat) es) /\
    sum_N (map size (sorted_dirs self)) = sum_N (map (stat_size os_stat) es).
Proof.
  intros target t p es self H.
  assert (E : dict_total (_dirs_holder self) = sum_N (map (stat_size os_stat) es)).
  { unfold self. rewrite walk_loop_fold, fold_visit_dirs_holder.
    fold es. rewrite fold_add_up_total; simpl; [reflexivity | exact H]. }
  split; [exact E|].
  unfold self. rewrite sorted_dirs_walk, map_map. simpl.
  rewrite <- E. unfold dict_total.
  apply sum_N_perm, Permutation_map, Permutation_sym, sorted_perm.
Qed.

(** *** The directory count *)

Lemma fold_add_up_keys es d :
  NoDup (map fst d) ->
  let d' := fold_left (fun d e => add_up (fst e) (size (record_of os_stat e)) d) es d in
  NoDup (map fst d') /\
  forall k, In k (map fst d') <-> In k (map fst d) \/ In k (map fst es).
Proof.
  clear os_path_ismount same_object os_statvfs.
  revert d. induction es as [|e es IH]; intros d H; simpl.
  - split; [exact H|]. intros k. tauto.
  - destruct (IH (add_up (fst e) (size (record_of os_stat e)) d)) as [Hn Hi].
    { apply add_up_keys_NoDup. exact H. }
    split; [exact Hn|]. intros k. rewrite Hi, add_up_keys_In.
    intuition congruence.
Qed.

Lemma dirs_holder_length target t p :
  List.length (_dirs_holder (walk_loop os_stat os_path_ismount same_object target t (probed p))) =
  List.length (nodup string_dec (map fst (walk_files os_path_ismount same_object target t))).
Proof.
  clear os_statvfs.
  rewrite walk_loop_fold, fold_visit_dirs_holder.
  destruct (@fold_add_up_keys (walk_files os_path_ismount same_object target t) [])
    as [Hn Hi]; [constructor|].
  rewrite <- (length_map fst). apply Permutation_length.
  apply NoDup_Permutation; [exact Hn | apply NoDup_nodup|].
  intros k. rewrite Hi, nodup_In. simpl. tauto.
Qed.

(** C9, as the code has it.  The directory count is the number of
    distinct directories that hold at least one processed entry, each of
    them a visited directory with a non-empty list of entries; it is the
    length of the complete sorted list before the truncation to 10. *)
Theorem C9_dir_count_counts_directories_with_entries :
  forall (target : string) (t : tree) (p : option Partition),
    let disk := _walk_filesystem os_stat os_path_ismount same_object target t (probed p) in
    let self := walk_loop os_stat os_path_ismount same_object target t (probed p) in
    let roots := map fst (walk_files os_path_ismount same_object target t) in
    disk_dir_count disk = List.length (nodup string_dec roots) /\
    disk_dir_count disk = List.length (sorted_dirs self) /\
    (forall root,
       In root roots <->
       exists files,
         In (root, files) (walk_yields os_path_ismount same_object target t) /\ files <> []).
Proof.
  intros target t p disk self roots.
  assert (E : disk_dir_count disk = List.length (sorted_dirs self)) by reflexivity.
  split; [|split; [exact E|]].
  - rewrite E. unfold self.
    rewrite sorted_dirs_walk, length_map, sorted_length.
    apply dirs_holder_length.
  - intros root. unfold roots, walk_files.
    rewrite in_map_iff. split.
    + intros ([r n] & <- & Hin). apply in_flat_map in Hin.
      destruct Hin as ([r' fs] & Hy & Hin). simpl in Hin.
      apply in_map_iff in Hin. destruct Hin as (n' & [= <- <-] & Hn).
      exists fs. split; [exact Hy|]. intros ->. destruct Hn.
    + intros (fs & Hy & Hne). destruct fs as [|n fs]; [exfalso; apply Hne; reflexivity|].
      exists (root, n). split; [reflexivity|].
      apply in_flat_map. exists (root, n :: fs). split; [exact Hy|].
      simpl. left. reflexivity.
Qed.

(** *** The largest directories *)

(** When [DiskUsage(target)] returns, the walk started from the object
    that the partition probe left. *)
Lemma init_probed target t disk :
  __init__ os_stat os_path_ismount same_object os_statvfs target t = Ok disk ->
  exists p,
    disk = _walk_filesystem os_stat os_path_ismount same_object target t (probed p).
Proof.
  unfold __init__, _get_partition_usage.
  destruct (os_statvfs target) as [st|]; [|discriminate].
  simpl. intros [= <-]. eexists. reflexivity.
Qed.

(** C6. Whenever [DiskUsage(target)] returns, the list of directories has
    at most 10 entries, is descending by accumulated size, and the
    directory count is at least its length. *)
Theorem C6_top_dirs_bounded_and_sorted :
  forall (target : string) (t : tree) (disk : Disk),
    __init__ os_stat os_path_ismount same_object os_statvfs target t = Ok disk ->
    (List.length (disk_dirs disk) <= 10)%nat /\
    descending size (disk_dirs disk) /\
    (List.length (disk_dirs disk) <= disk_dir_count disk)%nat.
Proof.
  intros target t disk H.
  destruct (init_probed target t H) as (p & ->).
  unfold _walk_filesystem, _remove_activity, _sort_dirs.
  cbn [disk_dirs disk_dir_count].
  rewrite sorted_dirs_walk.
  split; [apply firstn_le_length|]. split.
  - apply firstn_descending, descending_map_dir_entry, sorted_descending.
  - rewrite length_firstn. lia.
Qed.

(** *** The directory filter *)

Lemma walk_yields_Node top subdirs nondirs :
  walk_yields os_path_ismount same_object top (Node subdirs nondirs) =
  (top, nondirs) ::
  flat_map
    (fun d =>
       match assoc d subdirs with
       | Some sub => walk_yields os_path_ismount same_object (join top d) sub
       | None => []
       end)
    (_filter_dirs os_path_ismount same_object top (map fst subdirs)).
Proof. apply (yields_Node (_filter_dirs os_path_ismount same_object)). Qed.

Lemma walk_loop_ext top t t' self :
  walk_yields os_path_ismount same_object top t = walk_yields os_path_ismount same_object top t' ->
  walk_loop os_stat os_path_ismount same_object top t self =
  walk_loop os_stat os_path_ismount same_object top t' self.
Proof.
  intros H. rewrite !walk_loop_fold. unfold walk_files. rewrite H. reflexivity.
Qed.

Lemma init_ext target t t' :
  walk_yields os_path_ismount same_object target t = walk_yields os_path_ismount same_object target t' ->
  __init__ os_stat os_path_ismount same_object os_statvfs target t =
  __init__ os_stat os_path_ismount same_object os_statvfs target t'.
Proof.
  intros H. unfold __init__.
  destruct (_get_partition_usage os_statvfs target new_object) as [self|e];
    [|reflexivity].
  simpl. unfold _walk_filesystem. rewrite (@walk_loop_ext target t t' self H). reflexivity.
Qed.

Lemma filter_dirs_not_mount root dirs d :
  In d (_filter_dirs os_path_ismount same_object root dirs) ->
  In d dirs /\ os_path_ismount (join root d) = false.
Proof.
  unfold _filter_dirs. intros H.
  assert (H' : In d (filter (fun dir => negb (os_path_ismount (join root dir))) dirs)).
  { destruct (String.eqb root "/" && same_object); [|exact H].
    apply filter_In in H. destruct H as [H _]. exact H. }
  apply filter_In in H'. destruct H' as [Hin Hm]. split; [exact Hin|].
  apply negb_true_iff. exact Hm.
Qed.

Lemma filter_dirs_filter_mounts root dirs :
  _filter_dirs os_path_ismount same_object root
    (filter (fun dir => negb (os_path_ismount (join root dir))) dirs) =
  _filter_dirs os_path_ismount same_object root dirs.
Proof. unfold _filter_dirs. rewrite filter_idem. reflexivity. Qed.

Lemma walk_yields_prune t :
  forall top,
    walk_yields os_path_ismount same_object top (prune_mounts os_path_ismount top t) =
    walk_yields os_path_ismount same_object top t.
Proof.
  induction t as [subdirs nondirs IH] using tree_nested_ind.
  intros top. simpl prune_mounts. rewrite !walk_yields_Node. f_equal.
  rewrite (map_fst_filter (fun d => negb (os_path_ismount (join top d)))).
  rewrite (map_fst_map_keyed (fun d sub => prune_mounts os_path_ismount (join top d) sub)).
  rewrite filter_dirs_filter_mounts.
  apply flat_map_ext_in. intros d Hd.
  apply filter_dirs_not_mount in Hd. destruct Hd as [_ Hm].
  rewrite (assoc_filter (fun d => negb (os_path_ismount (join top d)))).
  rewrite Hm. simpl negb. cbv iota.
  rewrite (assoc_map (fun d sub => prune_mounts os_path_ismount (join top d) sub)).
  destruct (assoc d subdirs) as [sub|] eqn:E; simpl; [|reflexivity].
  apply assoc_In in E. rewrite Forall_forall in IH.
  apply (IH _ E).
Qed.

(** C7. The filter keeps no name whose path is a mount point, and the
    walk does not enter what the filter dropped: the sequence of
    directories and entries handed to the loop, the object after the loop
    and the object [DiskUsage(target)] returns are those of the tree from
    which every subdirectory that is a mount point has been removed
    together with everything below it. *)
Theorem C7_mount_points_are_not_entered :
  forall (target : string) (t : tree),
    (forall root dirs d,
       In d (_filter_dirs os_path_ismount same_object root dirs) ->
       In d dirs /\ os_path_ismount (join root d) = false) /\
    walk_yields os_path_ismount same_object target t =
      walk_yields os_path_ismount same_object target (prune_mounts os_path_ismount target t) /\
    (forall self,
       walk_loop os_stat os_path_ismount same_object target t self =
       walk_loop os_stat os_path_ismount same_object target
         (prune_mounts os_path_ismount target t) self) /\
    __init__ os_stat os_path_ismount same_object os_statvfs target t =
      __init__ os_stat os_path_ismount same_object os_statvfs target
        (prune_mounts os_path_ismount target t).
Proof.
  intros target t.
  pose proof (eq_sym (walk_yields_prune t target)) as E.
  split; [intros root dirs d; apply filter_dirs_not_mount|].
  split; [exact E|].
  split; [intros self; apply walk_loop_ext; exact E|].
  apply init_ext. exact E.
Qed.

(** *** The partition probe *)

(** C1, as the code has it.  When [os.statvfs] answers, the used bytes
    are (total blocks minus free blocks, [f_bfree]) times the block size,
    and the free bytes are the free blocks available to non-privileged
    callers ([f_bavail]) times the block size. *)
Theorem C1_partition_used_and_free :
  forall (target : string) (self : DiskUsage) (st : statvfs_result),
    os_statvfs target = Some st ->
    exists self' q,
      _get_partition_usage os_statvfs target self = Ok self' /\
      partition self' = Some q /\
      used q = ((f_blocks st - f_bfree st) * f_frsize st)%Z /\
      free q = (f_bavail st * f_frsize st)%Z /\
      total q = (f_blocks st * f_frsize st)%Z.
Proof.
  intros target self st H. unfold _get_partition_usage. rewrite H.
  eexists. eexists. split; [reflexivity|]. simpl.
  split; [reflexivity|]. repeat split.
Qed.

End Claims.

(** ** The exclusions at the root *)

Section RootExclusion.

Variable os_stat : string -> option stat_result.
Variable os_path_ismount : string -> bool.
Variable os_statvfs : string -> option statvfs_result.





End RootExclusion.

(** ** The percentages *)

Section ReportClaims.

Variable pyfloat : Type.
Variable float_of_int : Z -> pyfloat.
Variable fdiv fmul : pyfloat -> pyfloat -> pyfloat.
Variable round : pyfloat -> Z -> pyfloat.
Variable format_float : pyfloat -> string.
Variable format_int : Z -> string.
Variable to_human_readable : Z -> string.

Lemma calculate_percent_zero free :
  calculate_percent float_of_int fdiv fmul round free 0 = Raise ZeroDivisionError.
Proof. reflexivity. Qed.

Lemma calculate_percent_nonzero free total :
  total <> 0%Z ->
  calculate_percent float_of_int fdiv fmul round free total =
  Ok (round (fmul (fdiv (float_of_int free) (float_of_int total))
               (float_of_int 100)) 2).
Proof.
  intros H. unfold calculate_percent.
  destruct (Z.eqb_spec total 0); [contradiction | reflexivity].
Qed.

Lemma format_partition_output_zero output disk target p :
  disk_partition disk = Some p ->
  total p = 0%Z \/ inodes_total p = 0%Z ->
  format_partition_output float_of_int fdiv fmul round format_float
    format_int to_human_readable output disk target =
  Raise ZeroDivisionError.
Proof.
  intros Hp H. unfold format_partition_output. rewrite Hp.
  destruct (Z.eq_dec (total p) 0) as [E | Hne].
  - rewrite E, calculate_percent_zero. reflexivity.
  - destruct H as [E | E]; [contradiction|].
    rewrite (calculate_percent_nonzero _ Hne). simpl.
    rewrite E, calculate_percent_zero. reflexivity.
Qed.

(** C10. With a total other than 0, [calculate_percent] returns
    [round(float(free) / float(total) * 100, 2)]; with a total of 0 it
    raises [ZeroDivisionError]; [format_partition_output] raises it as
    soon as the byte total or the inode total of the partition is 0; and
    there is a filesystem, one reporting zero inodes, for which
    [DiskUsage(target)] returns and the report then raises. *)
Theorem C10_percent_division_is_unguarded :
  (forall free total,
     total <> 0%Z ->
     calculate_percent float_of_int fdiv fmul round free total =
     Ok (round (fmul (fdiv (float_of_int free) (float_of_int total))
                  (float_of_int 100)) 2)) /\
  (forall free,
     calculate_percent float_of_int fdiv fmul round free 0 =
     Raise ZeroDivisionError) /\
  (forall output disk target p,
     disk_partition disk = Some p ->
     total p = 0%Z \/ inodes_total p = 0%Z ->
     format_partition_output float_of_int fdiv fmul round format_float
       format_int to_human_readable output disk target =
     Raise ZeroDivisionError) /\
  (exists disk,
     __init__ Sample.stat_none Sample.no_mounts true
       (fun _ => Some Sample.statvfs_no_inodes) "/" (Node [] []) = Ok disk /\
     format_partition_output float_of_int fdiv fmul round format_float
       format_int to_human_readable [] disk "/" =
     Raise ZeroDivisionError).
Proof.
  split; [apply calculate_percent_nonzero|].
  split; [apply calculate_percent_zero|].
  split; [apply format_partition_output_zero|].
  eexists. split; [reflexivity|].
  eapply format_partition_output_zero; [reflexivity|].
  right. reflexivity.
Qed.

End ReportClaims.

(** * Further properties of the scan *)

(** ** The list of files, for every tree *)

Lemma descending_app_le {A : Type} (key : A -> N) (l1 l2 : list A) :
  descending key (l1 ++ l2) ->
  forall a b, In a l1 -> In b l2 -> key b <= key a.
Proof.
  induction l1 as [|x l1 IH]; simpl; intros Hd a b Ha Hb; [destruct Ha|].
  apply descending_cons in Hd. destruct Hd as [Hd Hx].
  destruct Ha as [<- | Ha]; [|apply (IH Hd a b Ha Hb)].
  rewrite Forall_forall in Hx. apply Hx. apply in_or_app. right. exact Hb.
Qed.

Lemma firstn_NoDup {A : Type} n (l : list A) : NoDup l -> NoDup (firstn n l).
Proof.
  intros H. rewrite <- (firstn_skipn n l) in H.
  apply NoDup_app_remove_r in H. exact H.
Qed.

Lemma perm_filter {A : Type} (f : A -> bool) l l' :
  Permutation l l' -> Permutation (filter f l) (filter f l').
Proof.
  induction 1 as [|x l l' _ IH|x y l|l l' l'' _ IH1 _ IH2]; simpl.
  - constructor.
  - destruct (f x); [apply perm_skip|]; exact IH.
  - destruct (f x), (f y); try reflexivity. apply perm_swap.
  - etransitivity; eassumption.
Qed.

Lemma filter_key_at_most_one {A : Type} (key : A -> N) l k :
  NoDup (map key l) ->
  Nat.le (List.length (filter (fun a => key a =? k) l)) 1.
Proof.
  induction l as [|x l IH]; simpl; intros H; [lia|].
  apply NoDup_cons_iff in H. destruct H as [Hx Hl].
  destruct (N.eqb_spec (key x) k) as [E | _]; [|apply IH; exact Hl].
  assert (En : filter (fun a => key a =? k) l = []).
  { destruct (filter (fun a => key a =? k) l) as [|y r] eqn:F; [reflexivity|].
    exfalso. apply Hx.
    assert (Hy : In y (filter (fun a => key a =? k) l)) by (rewrite F; left; reflexivity).
    apply filter_In in Hy. destruct Hy as [Hy Ek].
    apply N.eqb_eq in Ek. rewrite E, <- Ek. apply in_map. exact Hy. }
  rewrite En. simpl. lia.
Qed.

(** With pairwise distinct keys the sorted list depends on the elements
    only, not on their order. *)
Lemma sorted_perm_distinct {A : Type} (key : A -> N) l l' :
  Permutation l l' -> NoDup (map key l) -> sorted key l = sorted key l'.
Proof.
  intros Hp Hn. apply descending_stable_unique with (key := key);
    try apply sorted_descending.
  intros k. rewrite !sorted_stable.
  pose proof (perm_filter (fun a => key a =? k) Hp) as Hf.
  pose proof (@filter_key_at_most_one A key l k Hn) as Hl. unfold Nat.le in Hl.
  destruct (filter (fun a => key a =? k) l) as [|x [|y r]].
  - apply Permutation_nil in Hf. symmetry. exact Hf.
  - apply Permutation_length_1_inv in Hf. symmetry. exact Hf.
  - simpl in Hl. lia.
Qed.

Section FurtherFiles.

Variable os_stat : string -> option stat_result.
Variable os_path_ismount : string -> bool.
Variable same_object : bool.

(** X1. Whatever the tree, the list of files that the scan returns is the
    first 20 of all the emitted records in stable descending order of size:
    pruning after every insertion loses nothing against sorting once at
    the end. *)
Theorem X1_top_files_equal_offline_top_20 :
  forall (target : string) (t : tree) (p : option Partition),
    disk_files (_walk_filesystem os_stat os_path_ismount same_object target t (probed p)) =
    firstn 20
      (sorted size
         (map (record_of os_stat) (walk_files os_path_ismount same_object target t))).
Proof.
  intros target t p. rewrite disk_files_walk. apply fold_process_list.
Qed.

(** X2. The emitted records split into the returned list and the rest, and
    no record of the rest is larger than a record of the list. *)
Theorem X2_top_files_are_maximal :
  forall (target : string) (t : tree) (p : option Partition),
    let disk := _walk_filesystem os_stat os_path_ismount same_object target t (probed p) in
    let records := map (record_of os_stat) (walk_files os_path_ismount same_object target t) in
    exists rest,
      Permutation records (disk_files disk ++ rest) /\
      forall a b, In a (disk_files disk) -> In b rest -> size b <= size a.
Proof.
  intros target t p disk records.
  assert (E : disk_files disk = firstn 20 (sorted size records)).
  { unfold disk. rewrite disk_files_walk. apply fold_process_list. }
  exists (skipn 20 (sorted size records)). rewrite E, firstn_skipn.
  split; [apply sorted_perm|].
  apply descending_app_le. rewrite firstn_skipn. apply sorted_descending.
Qed.

(** X4. The file count is the number of entries processed, whether
    [os.stat] succeeded on them or not, and the list of files holds the
    smaller of 20 and that number of records. *)
Theorem X4_file_count_and_list_length :
  forall (target : string) (t : tree) (p : option Partition),
    let disk := _walk_filesystem os_stat os_path_ismount same_object target t (probed p) in
    let n := List.length (walk_files os_path_ismount same_object target t) in
    disk_file_count disk = N.of_nat n /\
    List.length (disk_files disk) = Nat.min 20 n.
Proof.
  intros target t p disk n. split.
  - apply disk_file_count_walk.
  - unfold disk. rewrite disk_files_walk, fold_process_list.
    rewrite length_firstn, sorted_length, length_map. reflexivity.
Qed.

(** X5. Every record of the returned list stems from a processed entry:
    it is either the record of an entry on which [os.stat] failed, without
    name and time and of size 0, or it carries the full path of an entry on
    which [os.stat] succeeded, with the time and the size that [os.stat]
    gave. *)
Theorem X5_listed_files_are_processed_entries :
  forall (target : string) (t : tree) (p : option Partition) (r : DottedDict),
    In r (disk_files (_walk_filesystem os_stat os_path_ismount same_object target t (probed p))) ->
    exists root nm,
      In (root, nm) (walk_files os_path_ismount same_object target t) /\
      match os_stat (join root nm) with
      | Some file_stat =>
          r = {| name := Some (join root nm);
                 modified := Some (st_mtime file_stat);
                 size := float (st_size file_stat) |}
      | None => r = sentinel
      end.
Proof.
  intros target t p r H.
  rewrite disk_files_walk, fold_process_list in H.
  apply firstn_In in H.
  apply (Permutation_in _ (Permutation_sym (sorted_perm size _))) in H.
  apply in_map_iff in H. destruct H as ([root nm] & <- & Hin).
  exists root, nm. split; [exact Hin|].
  unfold record_of, _get_file_data. simpl.
  destruct (os_stat (join root nm)); reflexivity.
Qed.

End FurtherFiles.

(** X3. For records of pairwise distinct sizes the list of files does not
    depend on the order in which the records arrive. *)
Theorem X3_top_files_independent_of_arrival_order :
  forall (self0 : DiskUsage) (rs rs' : list DottedDict),
    Permutation rs rs' ->
    NoDup (map size rs) ->
    files (fold_left (fun s r => _process_files r s) rs (set_files [] self0)) =
    files (fold_left (fun s r => _process_files r s) rs' (set_files [] self0)).
Proof.
  intros self0 rs rs' Hp Hn.
  rewrite !files_fold_process. simpl. rewrite !fold_process_list.
  rewrite (sorted_perm_distinct size Hp Hn). reflexivity.
Qed.

(** ** The directories, for every tree *)

Lemma dict_get_le_total k d v : dict_get k d = Some v -> v <= dict_total d.
Proof.
  unfold dict_total.
  induction d as [|[k' v'] d IH]; simpl; [discriminate|].
  destruct (String.eqb k k').
  - intros [= ->]. lia.
  - intros H. specialize (IH H). lia.
Qed.

Lemma In_dict_get k v d :
  NoDup (map fst d) -> In (k, v) d -> dict_get k d = Some v.
Proof.
  induction d as [|[k' v'] d IH]; simpl; intros Hn Hin; [destruct Hin|].
  apply NoDup_cons_iff in Hn. destruct Hn as [Hk Hn].
  destruct Hin as [[= -> ->] | Hin].
  - rewrite String.eqb_refl. reflexivity.
  - destruct (String.eqb_spec k k') as [-> | _]; [|apply IH; assumption].
    exfalso. apply Hk. change k' with (fst (k', v)). apply in_map. exact Hin.
Qed.

Lemma NoDup_map_Some {A : Type} (l : list A) : NoDup l -> NoDup (map Some l).
Proof.
  induction 1 as [|x l Hx _ IH]; simpl; constructor; [|exact IH].
  intros H. apply in_map_iff in H. destruct H as (y & [= ->] & Hy). contradiction.
Qed.

Lemma nodup_length_le (l : list string) :
  (List.length (nodup string_dec l) <= List.length l)%nat.
Proof.
  apply NoDup_incl_length; [apply NoDup_nodup|].
  intros x Hx. apply nodup_In in Hx. exact Hx.
Qed.

Section FurtherDirs.

Variable os_stat : string -> option stat_result.
Variable os_path_ismount : string -> bool.
Variable same_object : bool.

Local Abbreviation scanned target t p :=
  (_walk_filesystem os_stat os_path_ismount same_object target t (probed p)).
Local Abbreviation after_loop target t p :=
  (walk_loop os_stat os_path_ismount same_object target t (probed p)).
Local Abbreviation entries target t := (walk_files os_path_ismount same_object target t).

Lemma disk_dirs_walk target t p :
  disk_dirs (scanned target t p) =
  firstn 10
    (map dir_entry (sorted (@snd string N) (_dirs_holder (after_loop target t p)))).
Proof.
  unfold _walk_filesystem, _remove_activity, _sort_dirs. cbn [disk_dirs].
  rewrite sorted_dirs_walk. reflexivity.
Qed.

Lemma disk_dir_count_walk target t p :
  disk_dir_count (scanned target t p) =
  List.length (nodup string_dec (map fst (entries target t))).
Proof.
  unfold _walk_filesystem, _remove_activity, _sort_dirs. cbn [disk_dir_count].
  rewrite sorted_dirs_walk, length_map, sorted_length.
  apply dirs_holder_length.
Qed.

Lemma dirs_holder_keys target t p :
  NoDup (map fst (_dirs_holder (after_loop target t p))) /\
  forall k,
    In k (map fst (_dirs_holder (after_loop target t p))) <->
    In k (map fst (entries target t)).
Proof.
  rewrite walk_loop_fold, fold_visit_dirs_holder.
  destruct (@fold_add_up_keys os_stat (entries target t) []) as [Hn Hi];
    [constructor|].
  split; [exact Hn|]. intros k. rewrite Hi. simpl. split; [intros [[] | H]|]; auto.
Qed.

Lemma In_disk_dirs target t p r :
  In r (disk_dirs (scanned target t p)) ->
  exists k v,
    r = dir_entry (k, v) /\ In (k, v) (_dirs_holder (after_loop target t p)).
Proof.
  rewrite disk_dirs_walk. intros H. apply firstn_In in H.
  apply in_map_iff in H. destruct H as ([k v] & <- & Hin).
  exists k, v. split; [reflexivity|].
  apply (Permutation_in _ (Permutation_sym (sorted_perm (@snd string N) _))).
  exact Hin.
Qed.

(** X6. The directories that the scan returns are pairwise distinct, each
    carries its path and no time and is a directory in which at least one
    entry was processed, and their number is the smaller of 10 and the
    directory count. *)
Theorem X6_top_dirs_distinct_and_counted :
  forall (target : string) (t : tree) (p : option Partition),
    let disk := scanned target t p in
    NoDup (map name (disk_dirs disk)) /\
    (forall r,
       In r (disk_dirs disk) ->
       exists root,
         name r = Some root /\ modified r = None /\
         In root (map fst (entries target t))) /\
    List.length (disk_dirs disk) = Nat.min 10 (disk_dir_count disk).
Proof.
  intros target t p disk.
  destruct (dirs_holder_keys target t p) as [Hn Hi].
  split; [|split].
  - unfold disk. rewrite disk_dirs_walk, <- firstn_map, map_map.
    apply firstn_NoDup.
    change (fun x : string * N => name (dir_entry x))
      with (fun x : string * N => Some (fst x)).
    rewrite <- (map_map fst Some). apply NoDup_map_Some.
    eapply Permutation_NoDup; [|exact Hn].
    apply Permutation_map, sorted_perm.
  - intros r Hr. apply In_disk_dirs in Hr. destruct Hr as (k & v & -> & Hin).
    exists k. split; [reflexivity|]. split; [reflexivity|].
    apply Hi. change k with (fst (k, v)). apply in_map. exact Hin.
  - unfold disk. rewrite disk_dirs_walk.
    unfold _walk_filesystem, _remove_activity, _sort_dirs. cbn [disk_dir_count].
    rewrite sorted_dirs_walk, length_firstn. reflexivity.
Qed.

Lemma fold_add_up_get es :
  forall d k,
    dict_total d + sum_N (map (stat_size os_stat) es) <= 2 ^ 53 ->
    dict_get k
      (fold_left (fun d e => add_up (fst e) (size (record_of os_stat e)) d) es d) =
    match dict_get k d with
    | Some v => Some (v + sum_N (map (stat_size os_stat) (entries_in k es)))
    | None =>
        if existsb (fun e => String.eqb (fst e) k) es
        then Some (sum_N (map (stat_size os_stat) (entries_in k es)))
        else None
    end.
Proof.
  induction es as [|e es IH]; intros d k H; simpl in *.
  - destruct (dict_get k d); [rewrite N.add_0_r|]; reflexivity.
  - assert (Es : size (record_of os_stat e) = stat_size os_stat e).
    { rewrite record_size_float. apply float_exact. lia. }
    rewrite Es.
    assert (Et : dict_total (add_up (fst e) (stat_size os_stat e) d) =
                 dict_total d + stat_size os_stat e).
    { apply dict_total_add_up. lia. }
    rewrite IH by (rewrite Et; lia).
    destruct (String.eqb_spec (fst e) k) as [E | Hne].
    + subst k. rewrite dict_get_add_up_same. simpl.
      destruct (dict_get (fst e) d) as [v|] eqn:G.
      * pose proof (dict_get_le_total _ _ G).
        rewrite fadd_exact by lia. f_equal. lia.
      * reflexivity.
    + rewrite dict_get_add_up_other by congruence. reflexivity.
Qed.

(** X7. When the sizes of the entries on which [os.stat] succeeds add up
    to at most [2^53] bytes, the total kept for a directory is the sum of
    the sizes of the entries that lie directly in it, entries on which
    [os.stat] failed counting 0, and a directory without entries has no
    total; the size shown for each returned directory is that sum. *)
Theorem X7_directory_total_is_sum_of_own_entries :
  forall (target : string) (t : tree) (p : option Partition),
    let es := entries target t in
    sum_N (map (stat_size os_stat) es) <= 2 ^ 53 ->
    (forall root,
       dict_get root (_dirs_holder (after_loop target t p)) =
       if existsb (fun e => String.eqb (fst e) root) es
       then Some (sum_N (map (stat_size os_stat) (entries_in root es)))
       else None) /\
    (forall r,
       In r (disk_dirs (scanned target t p)) ->
       exists root,
         name r = Some root /\
         size r = sum_N (map (stat_size os_stat) (entries_in root es))).
Proof.
  intros target t p es H.
  assert (G : forall root,
             dict_get root (_dirs_holder (after_loop target t p)) =
             if existsb (fun e => String.eqb (fst e) root) es
             then Some (sum_N (map (stat_size os_stat) (entries_in root es)))
             else None).
  { intros root. rewrite walk_loop_fold, fold_visit_dirs_holder.
    fold es. rewrite fold_add_up_get by (simpl; exact H). reflexivity. }
  split; [exact G|].
  intros r Hr. apply In_disk_dirs in Hr. destruct Hr as (k & v & -> & Hin).
  exists k. split; [reflexivity|].
  destruct (dirs_holder_keys target t p) as [Hn _].
  pose proof (@In_dict_get k v _ Hn Hin) as E. rewrite G in E.
  destruct (existsb _ es); [|discriminate].
  injection E as E. simpl. symmetry. exact E.
Qed.

(** X8. The directory count never exceeds the file count nor the number
    of directories visited. *)
Theorem X8_dir_count_bounded :
  forall (target : string) (t : tree) (p : option Partition),
    let disk := scanned target t p in
    N.of_nat (disk_dir_count disk) <= disk_file_count disk /\
    (disk_dir_count disk <= List.length (visited os_path_ismount same_object target t))%nat.
Proof.
  intros target t p disk. unfold disk.
  rewrite disk_dir_count_walk, disk_file_count_walk. split.
  - pose proof (nodup_length_le (map fst (entries target t))) as H.
    rewrite length_map in H. lia.
  - apply NoDup_incl_length; [apply NoDup_nodup|].
    intros root Hr. apply nodup_In in Hr.
    apply in_map_iff in Hr. destruct Hr as ([r n] & <- & Hin).
    unfold walk_files in Hin. apply in_flat_map in Hin.
    destruct Hin as ([r' fs] & Hy & Hin). simpl in Hin.
    apply in_map_iff in Hin. destruct Hin as (n' & [= <- <-] & _).
    unfold visited. apply in_map_iff. eexists. split; [|exact Hy]. reflexivity.
Qed.

End FurtherDirs.

(** ** The filter and the order of the walk *)

Lemma filter_filter {B : Type} (f g : B -> bool) l :
  filter g (filter f l) = filter (fun x => f x && g x) l.
Proof.
  induction l as [|x l IH]; simpl; [reflexivity|].
  destruct (f x); simpl; [destruct (g x)|]; rewrite IH; reflexivity.
Qed.

Lemma filter_ext_eq {B : Type} (f g : B -> bool) l :
  (forall x, f x = g x) -> filter f l = filter g l.
Proof.
  intros H. induction l as [|x l IH]; simpl; [reflexivity|].
  rewrite H, IH. reflexivity.
Qed.

Lemma flat_map_flat_map {B C D : Type} (f : C -> list D) (g : B -> list C) l :
  flat_map f (flat_map g l) = flat_map (fun x => flat_map f (g x)) l.
Proof.
  induction l as [|x l IH]; simpl; [reflexivity|].
  rewrite flat_map_app, IH. reflexivity.
Qed.

Section FurtherWalk.

Variable os_stat : string -> option stat_result.
Variable os_path_ismount : string -> bool.
Variable same_object : bool.
Variable os_statvfs : string -> option statvfs_result.

Lemma filter_dirs_should_descend root dirs :
  _filter_dirs os_path_ismount same_object root dirs =
  filter (should_descend os_path_ismount same_object root) dirs.
Proof.
  unfold _filter_dirs, should_descend.
  destruct (String.eqb root "/" && same_object); simpl.
  - apply filter_filter.
  - apply filter_ext_eq. intros x. rewrite andb_true_r. reflexivity.
Qed.

(** X9. [_filter_dirs] is one pass over [dirs] with a predicate of the
    directory and the name: it keeps, in their order, the names whose path
    is no mount point and, when the identity test [root is '/'] succeeds,
    that are not in the exclusion list.  When the test fails, be it that
    [root] is another path or an equal string that is another object, a
    name of the exclusion list is kept.  Filtering twice changes nothing. *)
Theorem X9_filter_dirs_is_one_predicate :
  forall (root : string) (dirs : list string),
    _filter_dirs os_path_ismount same_object root dirs =
      filter (should_descend os_path_ismount same_object root) dirs /\
    (forall d,
       In d (_filter_dirs os_path_ismount same_object root dirs) <->
       In d dirs /\
       os_path_ismount (join root d) = false /\
       (root = "/"%string /\ same_object = true -> ~ In d exclude_root_dirs)) /\
    _filter_dirs os_path_ismount same_object root
      (_filter_dirs os_path_ismount same_object root dirs) =
      _filter_dirs os_path_ismount same_object root dirs.
Proof.
  intros root dirs. split; [apply filter_dirs_should_descend|]. split.
  - intros d. rewrite filter_dirs_should_descend, filter_In.
    unfold should_descend.
    rewrite andb_true_iff, orb_true_iff, !negb_true_iff, andb_false_iff.
    assert (Hex : existsb (String.eqb d) exclude_root_dirs = false <->
                  ~ In d exclude_root_dirs).
    { split.
      - intros H Hin.
        assert (existsb (String.eqb d) exclude_root_dirs = true).
        { apply existsb_exists. exists d. split; [exact Hin | apply String.eqb_refl]. }
        congruence.
      - intros H. destruct (existsb (String.eqb d) exclude_root_dirs) eqn:E;
          [|reflexivity].
        exfalso. apply H. apply existsb_exists in E.
        destruct E as (x & Hx & Ex). apply String.eqb_eq in Ex. subst x. exact Hx. }
    rewrite Hex.
    split.
    + intros (Hin & Hm & Hc). split; [exact Hin|]. split; [exact Hm|].
      intros [Er Es]. destruct Hc as [[Hf | Hf] | Hx]; [| |exact Hx].
      * apply String.eqb_neq in Hf. contradiction.
      * congruence.
    + intros (Hin & Hm & Hx). split; [exact Hin|]. split; [exact Hm|].
      destruct (String.eqb_spec root "/") as [Er | Hne]; [|left; left; reflexivity].
      destruct same_object; [|left; right; reflexivity].
      right. apply Hx. split; [exact Er | reflexivity].
  - rewrite !filter_dirs_should_descend. apply filter_idem.
Qed.

(** X10. The entries of a directory are processed in this order: its own
    entries as listed, all of them, then for each subdirectory that the
    filter keeps, in the order of the listing, the entries below it.  The
    entries of the target itself are processed whether or not the target is
    a mount point. *)
Theorem X10_entries_in_walk_order :
  forall (target : string) (subdirs : list (string * tree))
         (nondirs : list string),
    walk_files os_path_ismount same_object target (Node subdirs nondirs) =
    map (pair target) nondirs ++
    flat_map
      (fun d =>
         match assoc d subdirs with
         | Some sub => walk_files os_path_ismount same_object (join target d) sub
         | None => []
         end)
      (_filter_dirs os_path_ismount same_object target (map fst subdirs)).
Proof.
  intros target subdirs nondirs. unfold walk_files.
  rewrite walk_yields_Node. cbn [flat_map fst snd]. f_equal.
  rewrite flat_map_flat_map. apply flat_map_ext_in. intros d _.
  destruct (assoc d subdirs); reflexivity.
Qed.

(** ** The partition figures *)


End FurtherWalk.

Section FurtherReport.

Variable pyfloat : Type.
Variable float_of_int : Z -> pyfloat.
Variable fdiv fmul : pyfloat -> pyfloat -> pyfloat.
Variable round : pyfloat -> Z -> pyfloat.
Variable format_float : pyfloat -> string.
Variable format_int : Z -> string.
Variable to_human_readable : Z -> string.

Variable os_stat : string -> option stat_result.
Variable os_path_ismount : string -> bool.
Variable same_object : bool.
Variable os_statvfs : string -> option statvfs_result.

Local Abbreviation report output disk target :=
  (format_partition_output float_of_int fdiv fmul round format_float format_int
     to_human_readable output disk target).

(** X12. On the object that [DiskUsage(target)] returns,
    [format_partition_output] returns the lines it was given followed by
    exactly four new ones when the block count, the block size and the inode
    count that [os.statvfs] reported are all other than 0, and raises
    [ZeroDivisionError] otherwise. *)
Theorem X12_partition_report_succeeds_iff_totals_nonzero :
  forall (target : string) (t : tree) (st : statvfs_result)
         (output : list string),
    os_statvfs target = Some st ->
    exists disk,
      __init__ os_stat os_path_ismount same_object os_statvfs target t = Ok disk /\
      (f_blocks st <> 0%Z /\ f_frsize st <> 0%Z /\ f_files st <> 0%Z ->
       exists l1 l2 l3 l4,
         report output disk target = Ok (output ++ [l1; l2; l3; l4])) /\
      (f_blocks st = 0%Z \/ f_frsize st = 0%Z \/ f_files st = 0%Z ->
       report output disk target = Raise ZeroDivisionError).
Proof.
  intros target t st output H. unfold __init__, _get_partition_usage. rewrite H.
  eexists. split; [reflexivity|].
  match goal with
  | |- context [format_partition_output _ _ _ _ _ _ _ _ ?d _] =>
      assert (Hp : disk_partition d =
                   Some {| free := (f_bavail st * f_frsize st)%Z;
                           total := (f_blocks st * f_frsize st)%Z;
                           used := ((f_blocks st - f_bfree st) * f_frsize st)%Z;
                           inodes_free := f_favail st;
                           inodes_total := f_files st;
                           inodes_used := (f_files st - f_favail st)%Z |})
        by apply (disk_partition_walk os_stat os_path_ismount same_object target t)
  end.
  split.
  - intros (Hb & Hs & Hf).
    unfold format_partition_output. rewrite Hp. cbn [free total used inodes_free inodes_total inodes_used].
    rewrite (calculate_percent_nonzero float_of_int fdiv fmul round)
      by (intros E; apply Z.mul_eq_0 in E; tauto).
    cbn [bind].
    rewrite (calculate_percent_nonzero float_of_int fdiv fmul round) by exact Hf.
    cbn [bind].
    do 4 eexists. rewrite <- !app_assoc. reflexivity.
  - intros Hz. eapply format_partition_output_zero; [exact Hp|].
    cbn [total inodes_total].
    destruct Hz as [E | [E | E]]; [left; rewrite E; reflexivity | left; rewrite E; apply Z.mul_0_r | right; exact E].
Qed.

End FurtherReport.

(** ** The progress indicator *)

Lemma dots_length n : String.length (dots n) = n.
Proof. induction n as [|n IH]; simpl; [reflexivity | rewrite IH; reflexivity]. Qed.

Lemma dots_snoc n : (dots n ++ ".")%string = dots (S n).
Proof. induction n as [|n IH]; simpl; [reflexivity | rewrite IH; reflexivity]. Qed.

(** One more file: the count of completed blocks of 5000 goes up exactly
    when the new count is a multiple of 5000. *)
Lemma succ_div_5000 n :
  (n + 1) / 5000 = n / 5000 + (if (n + 1) mod 5000 =? 0 then 1 else 0).
Proof.
  pose proof (N.div_mod n 5000 ltac:(lia)) as E.
  pose proof (N.mod_lt n 5000 ltac:(lia)) as Hr.
  set (q := n / 5000) in *. set (r := n mod 5000) in *.
  destruct (N.eq_dec r 4999) as [E9 | Hne].
  - assert (Em : (n + 1) mod 5000 = 0).
    { symmetry. apply N.mod_unique with (q := q + 1); lia. }
    rewrite Em. simpl. symmetry.
    apply N.div_unique with (r := 0); lia.
  - assert (Em : (n + 1) mod 5000 = r + 1).
    { symmetry. apply N.mod_unique with (q := q); lia. }
    rewrite Em.
    destruct (N.eqb_spec (r + 1) 0); [lia|].
    rewrite N.add_0_r. symmetry.
    apply N.div_unique with (r := r + 1); lia.
Qed.

Lemma show_activity_step self k :
  (k <= 5)%nat -> _activity self = dots k ->
  exists k',
    (k' <= 5)%nat /\
    _activity (_show_activity self) = dots k' /\
    Forall progress_text (_show_activity_writes self) /\
    N.of_nat (List.length (_show_activity_writes self)) =
      2 * (if file_count self mod 5000 =? 0 then 1 else 0).
Proof.
  intros Hk Ea. unfold _show_activity_writes, _show_activity. cbn [_activity].
  rewrite Ea, dots_length.
  destruct (Nat.eqb_spec k 5) as [-> | Hne];
    destruct (file_count self mod 5000 =? 0).
  - exists 1%nat. split; [lia|]. split; [reflexivity|]. split; [|reflexivity].
    constructor; [left; reflexivity|].
    constructor; [right; exists 1%nat; split; [lia | reflexivity] | constructor].
  - exists 0%nat. split; [lia|]. split; [reflexivity|]. split; [constructor | reflexivity].
  - exists (S k). split; [lia|]. split; [apply dots_snoc|]. split; [|reflexivity].
    constructor; [left; reflexivity|].
    constructor; [right; exists (S k); split; [lia | apply dots_snoc] | constructor].
  - exists k. split; [lia|]. split; [reflexivity|]. split; [constructor | reflexivity].
Qed.

Section FurtherOutput.

Variable os_stat : string -> option stat_result.
Variable os_path_ismount : string -> bool.
Variable same_object : bool.

(** The inner loop body with its output, on an entry [(root, name)]. *)
Local Abbreviation visit_io w e := (visit_file_io os_stat (fst e) w (snd e)).

Lemma walk_io_fold target t w :
  os_walk (walk_body_io os_stat os_path_ismount same_object) target t w =
  fold_left (fun w e => visit_io w e) (walk_files os_path_ismount same_object target t) w.
Proof.
  unfold walk_files.
  change (os_walk (walk_body_io os_stat os_path_ismount same_object))
    with (os_walk (body_of (_filter_dirs os_path_ismount same_object)
                     (fun root files w =>
                        fold_left (visit_file_io os_stat root) files w))).
  rewrite os_walk_fold, fold_left_flat_map.
  apply fold_left_ext_eq. intros s y.
  rewrite fold_left_map. reflexivity.
Qed.

Lemma fold_visit_io_fst es w :
  fst (fold_left (fun w e => visit_io w e) es w) =
  fold_left (visit os_stat) es (fst w).
Proof.
  revert w. induction es as [|e es IH]; intros w; [reflexivity|].
  simpl. rewrite IH. reflexivity.
Qed.

Lemma visit_activity self e :
  _activity (visit os_stat self e) = _activity (_show_activity (incr_file_count self)).
Proof. open_visit _activity. through_process_files. Qed.

Lemma fold_visit_io_invariant es :
  forall w k,
    (k <= 5)%nat -> _activity (fst w) = dots k ->
    Forall progress_text (snd w) ->
    N.of_nat (List.length (snd w)) = 2 * (file_count (fst w) / 5000) ->
    let w' := fold_left (fun w e => visit_io w e) es w in
    Forall progress_text (snd w') /\
    N.of_nat (List.length (snd w')) = 2 * (file_count (fst w') / 5000).
Proof.
  induction es as [|e es IH]; intros w k Hk Ea Hf Hl; [split; assumption|].
  cbn [fold_left].
  destruct (@show_activity_step (incr_file_count (fst w)) k Hk Ea)
    as (k' & Hk' & Ea' & Hf' & Hl').
  apply (IH _ k' Hk').
  - cbn [fst visit_file_io].
    pose proof (visit_activity (fst w) e) as Hv. unfold visit in Hv.
    rewrite Hv. exact Ea'.
  - cbn [snd visit_file_io]. apply Forall_app. split; assumption.
  - cbn [fst snd visit_file_io].
    pose proof (visit_file_count os_stat (fst w) e) as Hc. unfold visit in Hc.
    rewrite Hc.
    rewrite length_app, Nat2N.inj_add, Hl, Hl'.
    cbn [file_count incr_file_count].
    rewrite succ_div_5000. lia.
Qed.

(** X13. The scan returns the same object whether or not its output is
    observed.  Everything it writes to [sys.stdout] is a carriage return
    or a run of at most five dots, never a line break, and the number of
    writes is two for every full 5000 entries processed plus the two of
    the final clean-up. *)
Theorem X13_progress_output :
  forall (target : string) (t : tree) (p : option Partition),
    let r := _walk_filesystem_io os_stat os_path_ismount same_object target t (probed p) in
    let n := N.of_nat (List.length (walk_files os_path_ismount same_object target t)) in
    fst r = _walk_filesystem os_stat os_path_ismount same_object target t (probed p) /\
    Forall progress_text (snd r) /\
    N.of_nat (List.length (snd r)) = 2 * (n / 5000) + 2.
Proof.
  intros target t p r n. unfold r, _walk_filesystem_io. cbn [fst snd].
  rewrite walk_io_fold.
  set (w' := fold_left (fun w e => visit_io w e)
               (walk_files os_path_ismount same_object target t) (probed p, [])).
  assert (Ef : fst w' = walk_loop os_stat os_path_ismount same_object target t (probed p)).
  { unfold w'. rewrite fold_visit_io_fst, walk_loop_fold. reflexivity. }
  destruct (@fold_visit_io_invariant (walk_files os_path_ismount same_object target t)
              (probed p, []) 0%nat) as [Hf Hl];
    [lia | reflexivity | constructor | reflexivity |].
  fold w' in Hf, Hl.
  split; [unfold _walk_filesystem; rewrite Ef; reflexivity|]. split.
  - apply Forall_app. split; [exact Hf|].
    unfold _remove_activity_writes.
    constructor; [left; reflexivity|].
    constructor; [right; exists 0%nat; split; [lia | reflexivity] | constructor].
  - rewrite length_app, Nat2N.inj_add, Hl. unfold _remove_activity_writes.
    rewrite Ef, walk_loop_fold, fold_visit_file_count.
    cbn [file_count probed List.length]. fold n.
    rewrite N.add_0_l. reflexivity.
Qed.

End FurtherOutput.

Section FurtherDirsOrder.

Variable os_stat : string -> option stat_result.
Variable os_path_ismount : string -> bool.
Variable same_object : bool.

(** X14. The directories with a total split into the returned list and
    the rest, and no directory of the rest has a larger total than a
    directory of the list. *)
Theorem X14_top_dirs_are_maximal :
  forall (target : string) (t : tree) (p : option Partition),
    let disk := _walk_filesystem os_stat os_path_ismount same_object target t (probed p) in
    let self := walk_loop os_stat os_path_ismount same_object target t (probed p) in
    exists rest,
      Permutation (map dir_entry (_dirs_holder self)) (disk_dirs disk ++ rest) /\
      forall a b, In a (disk_dirs disk) -> In b rest -> size b <= size a.
Proof.
  intros target t p disk self.
  set (all := map dir_entry (sorted (@snd string N) (_dirs_holder self))).
  assert (E : disk_dirs disk = firstn 10 all).
  { unfold disk, all, self. apply disk_dirs_walk. }
  exists (skipn 10 all). rewrite E, firstn_skipn. split.
  - unfold all. apply Permutation_map, sorted_perm.
  - apply descending_app_le. rewrite firstn_skipn.
    unfold all. apply descending_map_dir_entry, sorted_descending.
Qed.

End FurtherDirsOrder.

(** ** A full list *)

Lemma insert_stable_all_ge {A : Type} (key : A -> N) x l :
  Forall (fun y => key x <= key y) l -> insert_stable key x l = l ++ [x].
Proof.
  induction 1 as [|y l Hy _ IH]; simpl; [reflexivity|].
  destruct (N.ltb_spec (key y) (key x)); [lia|]. rewrite IH. reflexivity.
Qed.

Lemma insert_stable_snoc_lt {A : Type} (key : A -> N) x z l :
  key z < key x -> insert_stable key x (l ++ [z]) = insert_stable key x l ++ [z].
Proof.
  intros H. induction l as [|y l IH]; simpl.
  - destruct (N.ltb_spec (key z) (key x)); [reflexivity | lia].
  - destruct (key y <? key x); [reflexivity|]. rewrite IH. reflexivity.
Qed.

Lemma descending_last_least {A : Type} (key : A -> N) l z :
  descending key (l ++ [z]) -> Forall (fun y => key z <= key y) (l ++ [z]).
Proof.
  intros H. apply Forall_forall. intros y Hy.
  apply in_app_or in Hy. destruct Hy as [Hy | [<- | []]]; [|lia].
  apply (@descending_app_le A key l [z] H y z Hy). left. reflexivity.
Qed.

(** X15. Once the list holds 20 records, a further record no larger than
    the last one leaves the list as it is, also when it is as large as the
    last one; a larger record takes its sorted place and the last one goes. *)
Theorem X15_full_list_admits_only_larger_records :
  forall (self0 : DiskUsage) (rs : list DottedDict) (fd : DottedDict),
    let self := fold_left (fun s r => _process_files r s) rs (set_files [] self0) in
    List.length (files self) = 20%nat ->
    (size fd <= size (last (files self) sentinel) ->
     files (_process_files fd self) = files self) /\
    (size (last (files self) sentinel) < size fd ->
     files (_process_files fd self) =
     insert_stable size fd (removelast (files self))).
Proof.
  intros self0 rs fd self Hlen.
  assert (Hd : descending size (files self)).
  { unfold self. rewrite files_fold_process. simpl. rewrite fold_process_list.
    apply firstn_descending, sorted_descending. }
  assert (Hne : files self <> []).
  { intros E. rewrite E in Hlen. discriminate. }
  rewrite files_process_files, (process_list_spec fd Hd).
  rewrite insert_stable_length, Hlen.
  change (20 <? 21)%nat with true. cbv iota.
  pose proof (app_removelast_last sentinel Hne) as E.
  set (z := last (files self) sentinel) in *.
  set (l0 := removelast (files self)) in *.
  rewrite E in Hd |- *. split; intros H.
  - rewrite insert_stable_all_ge.
    + apply removelast_last.
    + eapply Forall_impl; [|apply (@descending_last_least _ size l0 z Hd)].
      simpl. intros y Hy. lia.
  - rewrite insert_stable_snoc_lt by exact H. apply removelast_last.
Qed.

(** * Instances *)

Local Open Scope string_scope.

Lemma distinctb_NoDup l : Sample.distinctb l = true -> NoDup l.
Proof.
  induction l as [|x l IH]; simpl; intros H; [constructor|].
  apply andb_true_iff in H. destruct H as [Hx Hl].
  constructor; [|apply IH; exact Hl].
  intros Hin. apply negb_true_iff in Hx.
  assert (Ht : existsb (N.eqb x) l = true).
  { apply existsb_exists. exists x. split; [exact Hin | apply N.eqb_refl]. }
  congruence.
Qed.

(** Five files in one directory. *)
Example scenario_five_files :
  _walk_filesystem Sample.stat_five Sample.no_mounts true "/t"
    (Node [] ["a"; "b"; "c"; "d"; "e"]%string) (probed None) =
  {| disk_dir_count := 1;
     disk_dirs := [{| name := Some "/t"%string; modified := None; size := 1005200 |}];
     disk_file_count := 5;
     disk_files :=
       [{| name := Some "/t/d"%string; modified := Some 0%Z; size := 999999 |};
        {| name := Some "/t/b"%string; modified := Some 0%Z; size := 5000 |};
        {| name := Some "/t/a"%string; modified := Some 0%Z; size := 100 |};
        {| name := Some "/t/e"%string; modified := Some 0%Z; size := 100 |};
        {| name := Some "/t/c"%string; modified := Some 0%Z; size := 1 |}];
     disk_partition := None |}.
Proof. vm_compute. reflexivity. Qed.

(** A mounted subdirectory is not entered. *)
Example scenario_nested_mount :
  let disk :=
    _walk_filesystem Sample.stat_five
      (fun path => String.eqb path "/t/m") true "/t"
      (Node [("m", Node [] ["a"; "b"]); ("s", Node [] ["c"])] ["d"])%string
      (probed None) in
  disk_file_count disk = 2 /\ disk_dir_count disk = 2%nat /\
  map name (disk_files disk) = [Some "/t/d"; Some "/t/s/c"]%string.
Proof. vm_compute. repeat split. Qed.

(** Exact rational arithmetic in the place of binary64. *)
Example percent_one_third :
  calculate_percent Sample.q_of_int QArith_base.Qdiv QArith_base.Qmult
    Sample.q_round 1 3 = Ok (QArith_base.Qmake 3333 100).
Proof. vm_compute. reflexivity. Qed.

Lemma C1_witness :
  exists self' q,
    _get_partition_usage (fun _ => Some Sample.statvfs_reserved) "/" new_object =
      Ok self' /\
    partition self' = Some q /\
    used q = ((1000 - 300) * 4096)%Z /\
    free q = (250 * 4096)%Z /\
    total q = (1000 * 4096)%Z.
Proof.
  exact (@C1_partition_used_and_free (fun _ => Some Sample.statvfs_reserved)
           "/"%string new_object Sample.statvfs_reserved eq_refl).
Defined.

(** Against C1 as stated: with 300 free blocks of which 250 are available
    to non-privileged callers, the used figure is 700 blocks, not 750. *)
Lemma C1_counterexample :
  exists self' q,
    _get_partition_usage (fun _ => Some Sample.statvfs_reserved) "/" new_object =
      Ok self' /\
    partition self' = Some q /\
    used q = (700 * 4096)%Z /\
    used q <>
      ((f_blocks Sample.statvfs_reserved - f_bavail Sample.statvfs_reserved)
       * f_frsize Sample.statvfs_reserved)%Z.
Proof.
  eexists. eexists. split; [reflexivity|]. split; [reflexivity|].
  split; [reflexivity|]. vm_compute. discriminate.
Qed.

Lemma C2_witness :
  Nat.le
    (List.length
       (files (_process_files (dir_entry ("c", 5))
                 (fold_left (fun s r => _process_files r s)
                    [dir_entry ("a", 5); dir_entry ("b", 9)]
                    (set_files [] new_object)))))
    20.
Proof.
  exact (proj1 (C2_top_files_after_each_insertion new_object
                  [dir_entry ("a", 5); dir_entry ("b", 9)] (dir_entry ("c", 5)))).
Defined.

(** Equal sizes keep the order in which they arrived. *)
Example scenario_ties :
  files (_process_files (dir_entry ("c", 5))
           (fold_left (fun s r => _process_files r s)
              [dir_entry ("a", 5); dir_entry ("b", 9)] (set_files [] new_object))) =
  [dir_entry ("b", 9); dir_entry ("a", 5); dir_entry ("c", 5)].
Proof. vm_compute. reflexivity. Qed.

Lemma C3_witness :
  List.length Sample.names25 = 25%nat /\
  List.length
    (disk_files
       (_walk_filesystem Sample.stat_by_last_char Sample.no_mounts true "/t"
          (Node [] Sample.names25) (probed None))) = 20%nat.
Proof.
  split; [reflexivity|].
  refine (proj1 (@C3_largest_20_of_25 Sample.stat_by_last_char Sample.no_mounts true
                   "/t"%string Sample.names25 None eq_refl _)).
  apply NoDup_map_inv with (f := fun x => x). rewrite map_id.
  apply distinctb_NoDup. vm_compute. reflexivity.
Defined.

Lemma C4_witness :
  Sample.stat_five (join "/t" "broken") = None /\
  visit_file_try (raising Sample.stat_five) "/t"
    (fold_left (visit Sample.stat_five) [("/t", "a"); ("/t", "b")] (probed None))
    "broken" =
  Ok (visit_file Sample.stat_five "/t"
        (fold_left (visit Sample.stat_five) [("/t", "a"); ("/t", "b")] (probed None))
        "broken").
Proof.
  split; [reflexivity|].
  exact (proj1 (@C4_stat_failure_is_absorbed Sample.stat_five None
                  [("/t", "a"); ("/t", "b")]%string "/t"%string "broken"%string
                  eq_refl)).
Defined.

(** Against C4 as stated: nineteen files, then a broken link, then an empty
    file.  The record of the link takes the twentieth place and the empty
    file, a real entry, is not listed; without the link it is. *)
Lemma C4_counterexample :
  let names := firstn 19 Cases.letters in
  let with_link :=
    _walk_filesystem Cases.stat_with_broken Sample.no_mounts true "/t"
      (Node [] (names ++ ["broken"; "empty"])%list) (probed None) in
  let without_link :=
    _walk_filesystem Cases.stat_with_broken Sample.no_mounts true "/t"
      (Node [] (names ++ ["empty"])%list) (probed None) in
  Cases.stat_with_broken "/t/broken" = None /\
  Cases.stat_with_broken "/t/empty" = Some {| st_size := 0; st_mtime := 0 |} /\
  lists "/t/empty" (disk_files without_link) = true /\
  lists "/t/empty" (disk_files with_link) = false /\
  last (disk_files with_link) (dir_entry ("", 1)) = sentinel /\
  List.length (disk_files with_link) = 20%nat.
Proof. vm_compute. repeat split. Qed.

(** Against C3 as stated: 25 files of [2^60 + i] bytes, [i] from 0 to 24,
    listed smallest first.  The byte sizes are pairwise distinct, the
    records all carry [2^60], and the list keeps the 20 that came first,
    the 20 smallest; the 5 largest are absent. *)
Lemma C3_counterexample :
  let es := map (pair "/t") Cases.letters in
  let disk :=
    _walk_filesystem Cases.stat_colliding Sample.no_mounts true "/t"
      (Node [] Cases.letters) (probed None) in
  map (stat_size Cases.stat_colliding) es =
    map (fun i => 2 ^ 60 + N.of_nat i) (seq 0 25) /\
  NoDup (map (stat_size Cases.stat_colliding) es) /\
  map size (disk_files disk) = repeat (2 ^ 60) 20 /\
  map name (disk_files disk) =
    map (fun n => Some (join "/t" n)) (firstn 20 Cases.letters) /\
  lists "/t/a" (disk_files disk) = true /\
  lists "/t/y" (disk_files disk) = false.
Proof.
  split; [vm_compute; reflexivity|].
  split; [apply distinctb_NoDup; vm_compute; reflexivity|].
  vm_compute. repeat split.
Qed.

Lemma C5_witness :
  dict_total
    (_dirs_holder
       (walk_loop Sample.stat_five Sample.no_mounts true "/t"
          (Node [("s", Node [] ["a"])] ["b"; "c"; "x"])%string (probed None))) =
  sum_N
    (map (stat_size Sample.stat_five)
       (walk_files Sample.no_mounts true "/t"
          (Node [("s", Node [] ["a"])] ["b"; "c"; "x"])%string)).
Proof.
  refine (proj1 (@C5_totals_conserve_bytes_up_to_2_53 Sample.stat_five
                   Sample.no_mounts true "/t"%string
                   (Node [("s", Node [] ["a"])] ["b"; "c"; "x"])%string None _)).
  vm_compute. discriminate.
Defined.

(** Against C5 as stated: three files of 2^53, 1 and 1 bytes in one
    directory.  The directory total stays at 2^53, two bytes short. *)
Lemma C5_counterexample :
  let es := walk_files Sample.no_mounts true "/t" (Node [] ["a"; "b"; "c"]%string) in
  let self :=
    walk_loop Sample.stat_huge Sample.no_mounts true "/t"
      (Node [] ["a"; "b"; "c"]%string) (probed None) in
  map (stat_size Sample.stat_huge) es = [2 ^ 53; 1; 1] /\
  map (fun e => size (record_of Sample.stat_huge e)) es = [2 ^ 53; 1; 1] /\
  _dirs_holder self = [("/t"%string, 2 ^ 53)] /\
  dict_total (_dirs_holder self) <> sum_N (map (stat_size Sample.stat_huge) es).
Proof.
  vm_compute. repeat split; discriminate.
Qed.

Lemma C6_witness :
  exists disk,
    __init__ Sample.stat_five Sample.no_mounts true
      (fun _ => Some Sample.statvfs_reserved) "/t"
      (Node [("s", Node [] ["a"])] ["b"; "c"]) = Ok disk /\
    (List.length (disk_dirs disk) <= 10)%nat.
Proof.
  eexists. split; [reflexivity|].
  refine (proj1 (@C6_top_dirs_bounded_and_sorted Sample.stat_five
                   Sample.no_mounts true (fun _ => Some Sample.statvfs_reserved)
                   "/t" (Node [("s", Node [] ["a"])] ["b"; "c"]) _ eq_refl)).
Defined.

Lemma C7_witness :
  In "s"%string
    (_filter_dirs (fun path => String.eqb path "/t/m") true "/t" ["m"; "s"]%string) /\
  (fun path => String.eqb path "/t/m") (join "/t" "s") = false.
Proof.
  split; [simpl; auto|].
  refine (proj2 (proj1 (@C7_mount_points_are_not_entered Sample.stat_five
                          (fun path => String.eqb path "/t/m") true
                          (fun _ => None) "/t"%string (Node [] []))
                   "/t"%string ["m"; "s"]%string "s"%string _)).
  simpl. auto.
Defined.



(** A root that equals ['/'] but is another object than the literal: the
    identity test fails and nothing is excluded. *)
Example identity_test_fails :
  _filter_dirs Sample.no_mounts false "/" ["dev"; "usr"; "proc"; "selinux"] =
  ["dev"; "usr"; "proc"; "selinux"].
Proof. reflexivity. Qed.

Lemma C9_witness :
  disk_dir_count
    (_walk_filesystem Sample.stat_five Sample.no_mounts true "/t"
       (Node [("s", Node [] ["a"])] [])%string (probed None)) =
  List.length
    (nodup string_dec
       (map fst
          (walk_files Sample.no_mounts true "/t" (Node [("s", Node [] ["a"])] [])%string))).
Proof.
  exact (proj1 (@C9_dir_count_counts_directories_with_entries Sample.stat_five
                  Sample.no_mounts true "/t"%string
                  (Node [("s", Node [] ["a"])] [])%string None)).
Defined.

(** Against C9 as stated: the target holds no file of its own and one
    subdirectory with one file.  Two directories are visited; the count
    is 1. *)
Lemma C9_counterexample :
  let t := Node [("s", Node [] ["a"])] []%string in
  let disk := _walk_filesystem Sample.stat_five Sample.no_mounts true "/t" t (probed None) in
  visited Sample.no_mounts true "/t" t = ["/t"; "/t/s"]%string /\
  disk_dir_count disk = 1%nat /\
  disk_dir_count disk <>
    List.length (nodup string_dec (visited Sample.no_mounts true "/t" t)).
Proof.
  vm_compute. repeat split. discriminate.
Qed.

Lemma C10_witness :
  (3 <> 0)%Z /\
  calculate_percent Sample.q_of_int QArith_base.Qdiv QArith_base.Qmult
    Sample.q_round 1 3 =
  Ok (Sample.q_round
        (QArith_base.Qmult
           (QArith_base.Qdiv (Sample.q_of_int 1) (Sample.q_of_int 3))
           (Sample.q_of_int 100)) 2).
Proof.
  split; [discriminate|].
  refine (proj1 (C10_percent_division_is_unguarded Sample.q_of_int
                   QArith_base.Qdiv QArith_base.Qmult Sample.q_round
                   (fun _ => EmptyString) (fun _ => EmptyString)
                   (fun _ => EmptyString)) 1%Z 3%Z _).
  discriminate.
Defined.

(** ** Instances of the further properties *)

Lemma X3_witness :
  files (fold_left (fun s r => _process_files r s)
           [dir_entry ("a", 5); dir_entry ("b", 9)] (set_files [] new_object)) =
  files (fold_left (fun s r => _process_files r s)
           [dir_entry ("b", 9); dir_entry ("a", 5)] (set_files [] new_object)).
Proof.
  refine (@X3_top_files_independent_of_arrival_order new_object
            [dir_entry ("a", 5); dir_entry ("b", 9)]
            [dir_entry ("b", 9); dir_entry ("a", 5)] (perm_swap _ _ _) _).
  apply distinctb_NoDup. vm_compute. reflexivity.
Defined.

Lemma X5_witness :
  exists root nm,
    In (root, nm) (walk_files Sample.no_mounts true "/t" (Node [] ["a"; "broken"])) /\
    match Sample.stat_five (join root nm) with
    | Some file_stat =>
        {| name := Some "/t/a"; modified := Some 0%Z; size := 100 |} =
        {| name := Some (join root nm);
           modified := Some (st_mtime file_stat);
           size := float (st_size file_stat) |}
    | None => {| name := Some "/t/a"; modified := Some 0%Z; size := 100 |} = sentinel
    end.
Proof.
  refine (@X5_listed_files_are_processed_entries Sample.stat_five Sample.no_mounts true
            "/t" (Node [] ["a"; "broken"]) None
            {| name := Some "/t/a"; modified := Some 0%Z; size := 100 |} _).
  vm_compute. left. reflexivity.
Defined.

Lemma X7_witness :
  dict_get "/t"
    (_dirs_holder
       (walk_loop Sample.stat_five Sample.no_mounts true "/t"
          (Node [("s", Node [] ["a"])] ["b"; "c"; "x"]) (probed None))) =
  (if existsb (fun e => String.eqb (fst e) "/t")
        (walk_files Sample.no_mounts true "/t"
           (Node [("s", Node [] ["a"])] ["b"; "c"; "x"]))
   then Some
          (sum_N
             (map (stat_size Sample.stat_five)
                (entries_in "/t"
                   (walk_files Sample.no_mounts true "/t"
                      (Node [("s", Node [] ["a"])] ["b"; "c"; "x"])))))
   else None).
Proof.
  refine (proj1 (@X7_directory_total_is_sum_of_own_entries Sample.stat_five
                   Sample.no_mounts true "/t"
                   (Node [("s", Node [] ["a"])] ["b"; "c"; "x"]) None _) "/t").
  vm_compute. discriminate.
Defined.


Lemma X12_witness :
  exists disk,
    __init__ Sample.stat_five Sample.no_mounts true
      (fun _ => Some Sample.statvfs_no_inodes) "/t" (Node [] ["a"]) = Ok disk /\
    format_partition_output Sample.q_of_int QArith_base.Qdiv QArith_base.Qmult
      Sample.q_round (fun _ => EmptyString) (fun _ => EmptyString)
      (fun _ => EmptyString) [] disk "/t" = Raise ZeroDivisionError.
Proof.
  destruct (@X12_partition_report_succeeds_iff_totals_nonzero
              QArith_base.Q Sample.q_of_int QArith_base.Qdiv QArith_base.Qmult
              Sample.q_round (fun _ => EmptyString) (fun _ => EmptyString)
              (fun _ => EmptyString)
              Sample.stat_five Sample.no_mounts true
              (fun _ => Some Sample.statvfs_no_inodes) "/t" (Node [] ["a"])
              Sample.statvfs_no_inodes [] eq_refl) as (disk & Hd & _ & Hz).
  exists disk. split; [exact Hd|]. apply Hz. right. right. reflexivity.
Defined.

Lemma X15_witness :
  files
    (_process_files (dir_entry ("late", 1))
       (fold_left (fun s r => _process_files r s)
          (map (fun n => dir_entry ("f", N.of_nat n)) (seq 1 20))
          (set_files [] new_object))) =
  files
    (fold_left (fun s r => _process_files r s)
       (map (fun n => dir_entry ("f", N.of_nat n)) (seq 1 20))
       (set_files [] new_object)).
Proof.
  refine (proj1 (@X15_full_list_admits_only_larger_records new_object
                   (map (fun n => dir_entry ("f", N.of_nat n)) (seq 1 20))
                   (dir_entry ("late", 1)) _) _).
  - vm_compute. reflexivity.
  - vm_compute. discriminate.
Defined.

(** The indicator over 12000 entries: two completed blocks of 5000. *)
Example scenario_progress :
  snd (_walk_filesystem_io Sample.stat_none Sample.no_mounts true "/t"
         (Node [] (repeat "f" (N.to_nat 12000))) (probed None)) =
  [cr; "."; cr; ".."; cr; ""].
Proof. vm_compute. reflexivity. Qed.
